(** * Option<T>: a shallow embedding of [src/Option.ts] and [src/index.ts]

    The TypeScript library implements Rust's [Option] as a small class
    hierarchy: a base class [Option] that hosts every method, and two
    subclasses [Some] and [None] that only differ by their class tag.
    Methods dispatch on [this instanceof Some] / [this instanceof None],
    several of them return [this] or an argument unchanged, and the others
    allocate fresh instances with [new].  Object identity is observable
    (the test-suite uses [assert.strictEqual] on instances), so the
    embedding keeps an explicit store of objects and threads it, together
    with thrown exceptions, through a state-and-error monad. *)

From Stdlib Require Import String ZArith.
From stdpp Require Import base list.

(** ** Values, objects and the store *)

(** JavaScript values.  Primitives are kept opaque enough for the library,
    which never computes on them; [VNum] carries integer-valued numbers.
    [VRef l] is a reference to the object stored at location [l]. *)
Inductive val : Type :=
  | VUndefined
  | VNull
  | VBool (b : bool)
  | VNum (n : Z)
  | VStr (s : string)
  | VRef (l : nat).

(** The classes an object can be an instance of: the three classes of
    [Option.ts], and [CObject] for any object of the host program that is
    not an Option at all. *)
Inductive class : Type := COption | CSome | CNone | CObject.

(** [class Some<T> extends Option<T>] and [class None<T> extends Option<T>]:
    [subclass c d] is the reflexive prototype-chain test behind
    [x instanceof d] for an [x] created by [new c]. *)
Definition subclass (c d : class) : bool :=
  match c, d with
  | COption, COption | CSome, CSome | CNone, CNone | CObject, CObject => true
  | CSome, COption | CNone, COption => true
  | _, _ => false
  end.

(** An object: its class tag and the single field [_value] declared by
    [Option] (for a [CObject] the slot is just some property of that name). *)
Record object : Type := Obj { cls : class; _value : val }.

(** What can be thrown.  [OptionError] carries its [message]; its [name] is
    the constant ['OptionError'].  [TypeError] is the host's error for a
    method call on something that has no such method, and [Thrown] is
    anything a caller-supplied function throws. *)
Inductive exn : Type :=
  | OptionError (message : string)
  | TypeError
  | Thrown (v : val).

(** The store: the heap of objects, addressed by position, and a log that
    belongs to the caller's functions (the library never touches it; it is
    how a supplied callback records that it ran). *)
Record store : Type := Store { heap : list object; trace : list val }.

(** ** The state-and-error monad *)

Inductive outcome (A : Type) : Type :=
  | Return (a : A)
  | Throw (e : exn).
Arguments Return {A} a.
Arguments Throw {A} e.

Definition M (A : Type) : Type := store -> outcome A * store.

Definition ret {A} (a : A) : M A := fun s => (Return a, s).

Definition throw {A} (e : exn) : M A := fun s => (Throw e, s).

Definition bind {A B} (m : M A) (f : A -> M B) : M B :=
  fun s =>
    match m s with
    | (Return a, s') => f a s'
    | (Throw e, s') => (Throw e, s')
    end.

Notation "x <- m ;; k" := (bind m (fun x => k))
  (at level 90, m at level 80, right associativity).
Notation "m ;;; k" := (bind m (fun _ => k))
  (at level 90, right associativity).

(** ** Host-language primitives *)

(** [v instanceof c]: false on primitives, never throws. *)
Definition instanceof (h : list object) (v : val) (c : class) : bool :=
  match v with
  | VRef l =>
      match h !! l with
      | Some o => subclass (cls o) c
      | None => false
      end
  | _ => false
  end.

(** The content of the [_value] slot of the object [v] refers to. *)
Definition held (h : list object) (v : val) : val :=
  match v with
  | VRef l =>
      match h !! l with
      | Some o => _value o
      | None => VUndefined
      end
  | _ => VUndefined
  end.

(** JavaScript truthiness, used by the conditional operator [c ? a : b]. *)
Definition truthy (v : val) : bool :=
  match v with
  | VUndefined | VNull => false
  | VBool b => b
  | VNum n => negb (n =? 0)%Z
  | VStr s => negb (String.eqb s EmptyString)
  | VRef _ => true
  end.

Definition test_instanceof (v : val) (c : class) : M bool :=
  fun s => (Return (instanceof (heap s) v c), s).

(** Property read [this._value]. *)
Definition get_value (this : val) : M val :=
  fun s =>
    match this with
    | VUndefined | VNull => (Throw TypeError, s)
    | VRef l =>
        match heap s !! l with
        | Some o => (Return (_value o), s)
        | None => (Throw TypeError, s)
        end
    | _ => (Return VUndefined, s)
    end.

(** Property write [this._value = value] (class bodies are strict code, so
    writing a property of a primitive throws). *)
Definition set_value (this : val) (value : val) : M unit :=
  fun s =>
    match this with
    | VRef l =>
        match heap s !! l with
        | Some o =>
            (Return tt,
             {| heap := <[l := Obj (cls o) value]> (heap s); trace := trace s |})
        | None => (Throw TypeError, s)
        end
    | _ => (Throw TypeError, s)
    end.

(** Allocation of the receiver of a constructor call: a fresh object of
    class [c] at the next free location, its field not yet assigned. *)
Definition alloc (c : class) : M val :=
  fun s =>
    (Return (VRef (length (heap s))),
     {| heap := heap s ++ [Obj c VUndefined]; trace := trace s |}).

(** Method call [recv.m(...)] for a method [m] of [Option.prototype]: the
    method is found exactly when [recv] is an instance of [Option] (or of a
    subclass); anything else has no such method. *)
Definition method {A} (recv : val) (body : M A) : M A :=
  fun s =>
    if instanceof (heap s) recv COption then body s else (Throw TypeError, s).

(** [new C(...)]: allocate, run the constructor on the new object, and
    return the object. *)
Definition construct (c : class) (ctor : val -> M unit) : M val :=
  this <- alloc c ;;
  ctor this ;;;
  ret this.

(** ** [Option.ts] *)

Module OptionError.
Definition illegalUnwrap : exn := OptionError "tried to unwrap on None"%string.

Definition illegalInstantiation : exn :=
  OptionError "Option must be an instance of Some or None"%string.
End OptionError.

Module Option.

Definition isSome (this : val) : M bool :=
  method this (test_instanceof this CSome).

Definition isNone (this : val) : M bool :=
  method this (test_instanceof this CNone).

(** [constructor(value)]: rejects a receiver that is neither a [Some] nor a
    [None], then stores [value].  The [&&] is short-circuit. *)
Definition constructor (this : val) (value : val) : M unit :=
  is_some <- isSome this ;;
  illegal <- (if negb is_some
              then is_none <- isNone this ;; ret (negb is_none)
              else ret false) ;;
  if illegal : bool
  then throw OptionError.illegalInstantiation
  else set_value this value.

(** [new Option(value)], [new Some(value)] and [new None()].  [Some] has no
    constructor of its own and so forwards its argument to [super];
    [None]'s constructor is [super(undefined)]. *)
Definition new_Option (value : val) : M val :=
  construct COption (fun this => constructor this value).

Definition new_Some (value : val) : M val :=
  construct CSome (fun this => constructor this value).

Definition new_None : M val :=
  construct CNone (fun this => constructor this VUndefined).

Definition default : M val := new_None.

Definition unwrap (this : val) : M val :=
  method this
    (is_some <- isSome this ;;
     if is_some : bool then get_value this
     else throw OptionError.illegalUnwrap).

Definition unwrapOr (this : val) (fallback : val) : M val :=
  method this
    (is_some <- isSome this ;;
     if is_some : bool then unwrap this else ret fallback).

Definition unwrapOrElse (this : val) (op : M val) : M val :=
  method this
    (is_some <- isSome this ;;
     if is_some : bool then unwrap this else op).

Definition map (this : val) (op : val -> M val) : M val :=
  method this
    (is_some <- isSome this ;;
     if is_some : bool
     then v <- unwrap this ;; u <- op v ;; new_Some u
     else new_None).

Definition mapOr (this : val) (fallback : val) (op : val -> M val) : M val :=
  method this
    (is_some <- isSome this ;;
     if is_some : bool
     then v <- unwrap this ;; op v
     else ret fallback).

Definition mapOrElse (this : val) (fallback : M val) (op : val -> M val)
  : M val :=
  method this
    (is_some <- isSome this ;;
     if is_some : bool
     then v <- unwrap this ;; op v
     else fallback).

Definition and (this : val) (optb : val) : M val :=
  method this
    (is_some <- isSome this ;;
     if is_some : bool then ret optb else new_None).

Definition andThen (this : val) (op : val -> M val) : M val :=
  method this
    (is_some <- isSome this ;;
     if is_some : bool
     then v <- unwrap this ;; op v
     else new_None).

Definition filter (this : val) (op : val -> M val) : M val :=
  method this
    (andThen this
       (fun v => keep <- op v ;;
                 if truthy keep then ret this else new_None)).

Definition or (this : val) (optb : val) : M val :=
  method this
    (is_some <- isSome this ;;
     if is_some : bool then ret this else ret optb).

Definition orElse (this : val) (op : M val) : M val :=
  method this
    (is_some <- isSome this ;;
     if is_some : bool then ret this else op).

Definition xor (this : val) (optb : val) : M val :=
  method this
    (is_some <- isSome this ;;
     if is_some : bool
     then (b_some <- isSome optb ;;
           if b_some : bool then new_None else ret this)
     else (b_some <- isSome optb ;;
           if b_some : bool then ret optb else new_None)).

Definition flatten (this : val) : M val :=
  method this
    (mapOrElse this new_None
       (fun v => inner <- test_instanceof v CSome ;;
                 if inner : bool then ret v else ret this)).

End Option.

(** ** [index.ts] *)

Definition some (value : val) : M val := Option.new_Some value.

Definition none : M val := Option.new_None.

(** ** Observations on stores *)

(** The store after one more object has been allocated. *)
Definition push (s : store) (o : object) : store :=
  {| heap := heap s ++ [o]; trace := trace s |}.

(** The reference the next allocation returns. *)
Definition next (s : store) : val := VRef (length (heap s)).

(** An Option, as the public interface hands them out: an instance of one
    of the two variant classes. *)
Definition is_option (h : list object) (v : val) : bool :=
  instanceof h v CSome || instanceof h v CNone.

(** [v] is an instance constructed between [s] and [s']: it refers to no
    object of [s] and to an object of [s']. *)
Definition fresh_in (s s' : store) (v : val) : Prop :=
  exists l, v = VRef l /\ heap s !! l = None /\ is_Some (heap s' !! l).

(** A computation that completes normally in [s]. *)
Definition succeeds {A} (m : M A) (s : store) : bool :=
  match m s with
  | (Return _, _) => true
  | (Throw _, _) => false
  end.

(** Exactly one of [isSome()] and [isNone()] answers [true] on [v] in the
    store [s] (and both calls complete). *)
Definition one_variant (s : store) (v : val) : bool :=
  match Option.isSome v s, Option.isNone v s with
  | (Return a, _), (Return b, _) => xorb a b
  | _, _ => false
  end.

(** Two results, each read in the store its call ended in, agree as values:
    both are [Some] holding the same value, or both are [None]. *)
Definition agree (s1 : store) (r1 : val) (s2 : store) (r2 : val) : Prop :=
  (instanceof (heap s1) r1 CSome = true /\
   instanceof (heap s2) r2 CSome = true /\
   held (heap s1) r1 = held (heap s2) r2) \/
  (instanceof (heap s1) r1 CNone = true /\
   instanceof (heap s2) r2 CNone = true).

(** ** Caller-supplied functions *)

(** A pure function of the caller, instrumented to log the argument of each
    of its invocations. *)
Definition counted (f : val -> val) : val -> M val :=
  fun v s => (Return (f v), {| heap := heap s; trace := trace s ++ [v] |}).

(** A supplied function that never throws: a thunk [() => ...] that
    completes in every store, a callback that does so on every argument. *)
Definition completes (produce : M val) : Prop :=
  forall s, succeeds produce s = true.

Definition total (op : val -> M val) : Prop :=
  forall v, completes (op v).

(** A computation of the caller that, when it returns, has only allocated:
    the objects that existed before are unchanged.  This is all that code
    using the public interface can do to Options, which have no mutator. *)
Definition allocates_only {A} (m : M A) : Prop :=
  forall s r s', m s = (Return r, s') -> heap s `prefix_of` heap s'.

(** A computation of the caller whose result, when it returns, is an
    Option in one of the two variant states. *)
Definition yields_option (m : M val) : Prop :=
  forall s r s', m s = (Return r, s') ->
    heap s `prefix_of` heap s' /\ one_variant s' r = true.

(** A pure function of the caller, as a callback: no effect on the store. *)
Definition pure_fn (f : val -> val) : val -> M val := fun v => ret (f v).

(** A computation that, however it ends, leaves every object that existed
    before it as it was: the heap it ends in extends the heap it started
    in. *)
Definition only_grows {A} (m : M A) : Prop :=
  forall s, heap s `prefix_of` heap (snd (m s)).

(** ** [filter] as the specification words it *)

(** The receiver itself if it is Present and the predicate holds of its
    value; a new Absent if it is Present and the predicate fails, or if the
    receiver is already Absent. *)
Definition filter_spec (this : val) (predicate : val -> M val) : M val :=
  present <- test_instanceof this CSome ;;
  if present : bool
  then value <- get_value this ;;
       keep <- predicate value ;;
       if truthy keep then ret this else Option.new_None
  else Option.new_None.

(** ** A store to run examples in *)

(** [#0 = Some('foo')], [#1 = None], [#2 = Some(#0)], [#3 = Some(#1)],
    [#4 = Some('bar')]. *)
Definition sample : store :=
  {| heap := [Obj CSome (VStr "foo"); Obj CNone VUndefined;
              Obj CSome (VRef 0); Obj CSome (VRef 1);
              Obj CSome (VStr "bar")];
     trace := [] |}.

(** Caller-supplied functions taken from the test-suite:
    [x => new Some(x)], [x => x === 'foo'] and [x => x]. *)
Definition wrap : val -> M val := fun x => Option.new_Some x.

Definition is_foo : val -> M val :=
  fun x => ret (VBool match x with
                      | VStr w => String.eqb w "foo"
                      | _ => false
                      end).

Definition same : val -> M val := fun x => ret x.

(** ** Basic facts about the host primitives *)

Section Primitives.

Implicit Types (h : list object) (s : store) (v this : val) (c : class).

Lemma lookup_push_old h (o o' : object) l :
  h !! l = Some o -> (h ++ [o']) !! l = Some o.
Proof.
  intros H. rewrite lookup_app_l; [done|]. by eapply lookup_lt_Some.
Qed.

Lemma lookup_push_new h (o : object) : (h ++ [o]) !! length h = Some o.
Proof.
  rewrite lookup_app_r by lia. by rewrite Nat.sub_diag.
Qed.

Lemma insert_push_new h (o o' : object) :
  <[length h := o']> (h ++ [o]) = h ++ [o'].
Proof.
  rewrite insert_app_r_alt by lia. by rewrite Nat.sub_diag.
Qed.

Lemma instanceof_ref h l o c :
  h !! l = Some o -> instanceof h (VRef l) c = subclass (cls o) c.
Proof. intros H. unfold instanceof. by rewrite H. Qed.

Lemma instanceof_Some_Option h v :
  instanceof h v CSome = true -> instanceof h v COption = true.
Proof.
  unfold instanceof. destruct v; try done.
  destruct (h !! l) as [[[] ?]|]; done.
Qed.

Lemma instanceof_None_Option h v :
  instanceof h v CNone = true -> instanceof h v COption = true.
Proof.
  unfold instanceof. destruct v; try done.
  destruct (h !! l) as [[[] ?]|]; done.
Qed.

Lemma instanceof_Some_not_None h v :
  instanceof h v CSome = true -> instanceof h v CNone = false.
Proof.
  unfold instanceof. destruct v; try done.
  destruct (h !! l) as [[[] ?]|]; done.
Qed.

Lemma is_option_cases h v :
  is_option h v = true ->
  (instanceof h v CSome = true /\ instanceof h v CNone = false) \/
  (instanceof h v CSome = false /\ instanceof h v CNone = true).
Proof.
  unfold is_option, instanceof. destruct v; try done.
  destruct (h !! l) as [[[] ?]|]; simpl; auto.
Qed.

Lemma is_option_Option h v :
  is_option h v = true -> instanceof h v COption = true.
Proof.
  intros [[H _]|[_ H]]%is_option_cases;
    auto using instanceof_Some_Option, instanceof_None_Option.
Qed.

(** Objects never change class, and allocation leaves old objects alone:
    whatever held of [v] in a heap holds in every heap it is a prefix of. *)
Lemma instanceof_prefix h h' v c :
  h `prefix_of` h' -> instanceof h v c = true -> instanceof h' v c = true.
Proof.
  intros [k ->]. unfold instanceof. destruct v; try done.
  destruct (h !! l) as [o|] eqn:E; [|done].
  rewrite lookup_app_l by (by eapply lookup_lt_Some). by rewrite E.
Qed.

Lemma held_prefix h h' v c :
  h `prefix_of` h' -> instanceof h v c = true -> held h' v = held h v.
Proof.
  intros [k ->]. unfold instanceof, held. destruct v; try done.
  destruct (h !! l) as [o|] eqn:E; [|done].
  rewrite lookup_app_l by (by eapply lookup_lt_Some). by rewrite E.
Qed.

Lemma instanceof_allocated h v c :
  instanceof h v c = true -> exists l, v = VRef l /\ l < length h.
Proof.
  unfold instanceof. destruct v; try done.
  destruct (h !! l) as [o|] eqn:E; [|done].
  intros _. exists l. split; [done|]. by eapply lookup_lt_Some.
Qed.

Lemma fresh_in_not_instance s s' v w c :
  fresh_in s s' v -> instanceof (heap s) w c = true -> v <> w.
Proof.
  intros (l & -> & Hnone & _) Hw <-. unfold instanceof in Hw.
  by rewrite Hnone in Hw.
Qed.

Lemma next_fresh s o : fresh_in s (push s o) (next s).
Proof.
  exists (length (heap s)). split; [done|]. split.
  - apply lookup_ge_None_2. lia.
  - simpl. rewrite lookup_push_new. by eexists.
Qed.

Lemma instanceof_next s o c :
  instanceof (heap (push s o)) (next s) c = subclass (cls o) c.
Proof. unfold instanceof, next, push. simpl. by rewrite lookup_push_new. Qed.

Lemma held_next s o : held (heap (push s o)) (next s) = _value o.
Proof. unfold held, next, push. simpl. by rewrite lookup_push_new. Qed.

Lemma push_prefix s o : heap s `prefix_of` heap (push s o).
Proof. by eexists. Qed.

End Primitives.

(** ** How each method runs *)

Section Methods.

Implicit Types (s : store) (v this optb : val).

Lemma isSome_run this s :
  instanceof (heap s) this COption = true ->
  Option.isSome this s = (Return (instanceof (heap s) this CSome), s).
Proof.
  intros H. unfold Option.isSome, method, test_instanceof. by rewrite H.
Qed.

Lemma isNone_run this s :
  instanceof (heap s) this COption = true ->
  Option.isNone this s = (Return (instanceof (heap s) this CNone), s).
Proof.
  intros H. unfold Option.isNone, method, test_instanceof. by rewrite H.
Qed.

Lemma get_value_run this s c :
  instanceof (heap s) this c = true ->
  get_value this s = (Return (held (heap s) this), s).
Proof.
  unfold instanceof, get_value, held. destruct this; try done.
  by destruct (heap s !! l).
Qed.

Lemma alloc_run c s : alloc c s = (Return (next s), push s (Obj c VUndefined)).
Proof. reflexivity. Qed.

Lemma set_value_next value s o :
  set_value (next s) value (push s o) =
  (Return tt, push s (Obj (cls o) value)).
Proof.
  unfold set_value, next, push. simpl.
  by rewrite lookup_push_new, insert_push_new.
Qed.

(** The base constructor accepts exactly the receivers that are instances
    of a variant class. *)
Lemma constructor_variant this value s :
  is_option (heap s) this = true ->
  Option.constructor this value s = set_value this value s.
Proof.
  intros H. pose proof (is_option_Option _ _ H) as HO.
  unfold Option.constructor, bind. rewrite isSome_run by done.
  destruct (is_option_cases _ _ H) as [[-> _]|[-> HN]]; simpl; [done|].
  by rewrite isNone_run, HN.
Qed.

Lemma constructor_base this value s :
  instanceof (heap s) this COption = true ->
  is_option (heap s) this = false ->
  Option.constructor this value s =
  (Throw OptionError.illegalInstantiation, s).
Proof.
  intros HO [HS HN]%orb_false_elim.
  unfold Option.constructor, bind.
  rewrite isSome_run, HS by done. cbn.
  by rewrite isNone_run, HN.
Qed.

Lemma construct_Some_run value s :
  Option.new_Some value s = (Return (next s), push s (Obj CSome value)).
Proof.
  unfold Option.new_Some, construct, bind. rewrite alloc_run.
  rewrite constructor_variant, set_value_next; [done|].
  unfold is_option. by rewrite instanceof_next.
Qed.

Lemma construct_None_run s :
  Option.new_None s = (Return (next s), push s (Obj CNone VUndefined)).
Proof.
  unfold Option.new_None, construct, bind. rewrite alloc_run.
  rewrite constructor_variant, set_value_next; [done|].
  unfold is_option. by rewrite !instanceof_next.
Qed.

Lemma construct_Option_run value s :
  Option.new_Option value s =
  (Throw OptionError.illegalInstantiation, push s (Obj COption VUndefined)).
Proof.
  unfold Option.new_Option, construct, bind. rewrite alloc_run.
  rewrite constructor_base; [done| |].
  - by rewrite instanceof_next.
  - unfold is_option. by rewrite !instanceof_next.
Qed.

Lemma unwrap_Some_run this s :
  instanceof (heap s) this CSome = true ->
  Option.unwrap this s = (Return (held (heap s) this), s).
Proof.
  intros H. pose proof (instanceof_Some_Option _ _ H) as HO.
  unfold Option.unwrap, method, bind. rewrite HO, isSome_run, H by done.
  by eapply get_value_run.
Qed.

Lemma unwrap_not_Some_run this s :
  instanceof (heap s) this COption = true ->
  instanceof (heap s) this CSome = false ->
  Option.unwrap this s = (Throw OptionError.illegalUnwrap, s).
Proof.
  intros HO H. unfold Option.unwrap, method, bind.
  by rewrite HO, isSome_run, H.
Qed.

(** Most methods have the shape
    [if (this.isSome()) { ... } ...]: on a [Some] the first branch runs, on
    any other instance of [Option] the second. *)
Lemma branch_Some {A} this (yes no : M A) s :
  instanceof (heap s) this CSome = true ->
  method this (is_some <- Option.isSome this ;;
               if is_some : bool then yes else no) s = yes s.
Proof.
  intros H. pose proof (instanceof_Some_Option _ _ H) as HO.
  unfold method, bind. by rewrite HO, isSome_run, H.
Qed.

Lemma branch_not_Some {A} this (yes no : M A) s :
  instanceof (heap s) this COption = true ->
  instanceof (heap s) this CSome = false ->
  method this (is_some <- Option.isSome this ;;
               if is_some : bool then yes else no) s = no s.
Proof.
  intros HO H. unfold method, bind. by rewrite HO, isSome_run, H.
Qed.

Lemma bind_unwrap_Some {A} this (k : val -> M A) s :
  instanceof (heap s) this CSome = true ->
  (v <- Option.unwrap this ;; k v) s = k (held (heap s) this) s.
Proof. intros H. unfold bind. by rewrite unwrap_Some_run. Qed.

Lemma unwrapOr_Some_run this fallback s :
  instanceof (heap s) this CSome = true ->
  Option.unwrapOr this fallback s = (Return (held (heap s) this), s).
Proof.
  intros H. unfold Option.unwrapOr. rewrite branch_Some by done.
  by apply unwrap_Some_run.
Qed.

Lemma unwrapOrElse_Some_run this op s :
  instanceof (heap s) this CSome = true ->
  Option.unwrapOrElse this op s = (Return (held (heap s) this), s).
Proof.
  intros H. unfold Option.unwrapOrElse. rewrite branch_Some by done.
  by apply unwrap_Some_run.
Qed.

Lemma map_Some_run this op s :
  instanceof (heap s) this CSome = true ->
  Option.map this op s =
  (u <- op (held (heap s) this) ;; Option.new_Some u) s.
Proof.
  intros H. unfold Option.map. rewrite branch_Some by done.
  by apply bind_unwrap_Some.
Qed.

Lemma mapOr_Some_run this fallback op s :
  instanceof (heap s) this CSome = true ->
  Option.mapOr this fallback op s = op (held (heap s) this) s.
Proof.
  intros H. unfold Option.mapOr. rewrite branch_Some by done.
  by apply bind_unwrap_Some.
Qed.

Lemma mapOrElse_Some_run this fallback op s :
  instanceof (heap s) this CSome = true ->
  Option.mapOrElse this fallback op s = op (held (heap s) this) s.
Proof.
  intros H. unfold Option.mapOrElse. rewrite branch_Some by done.
  by apply bind_unwrap_Some.
Qed.

Lemma andThen_Some_run this op s :
  instanceof (heap s) this CSome = true ->
  Option.andThen this op s = op (held (heap s) this) s.
Proof.
  intros H. unfold Option.andThen. rewrite branch_Some by done.
  by apply bind_unwrap_Some.
Qed.

Lemma andThen_not_Some_run this op s :
  instanceof (heap s) this COption = true ->
  instanceof (heap s) this CSome = false ->
  Option.andThen this op s = Option.new_None s.
Proof. intros HO H. unfold Option.andThen. by apply branch_not_Some. Qed.

Lemma filter_Some_run this op s :
  instanceof (heap s) this CSome = true ->
  Option.filter this op s =
  (keep <- op (held (heap s) this) ;;
   if truthy keep then ret this else Option.new_None) s.
Proof.
  intros H. pose proof (instanceof_Some_Option _ _ H) as HO.
  unfold Option.filter, method. rewrite HO. by apply andThen_Some_run.
Qed.

Lemma filter_not_Some_run this op s :
  instanceof (heap s) this COption = true ->
  instanceof (heap s) this CSome = false ->
  Option.filter this op s = Option.new_None s.
Proof.
  intros HO H. unfold Option.filter, method. rewrite HO.
  by apply andThen_not_Some_run.
Qed.

Lemma xor_run this optb s :
  instanceof (heap s) this COption = true ->
  instanceof (heap s) optb COption = true ->
  Option.xor this optb s =
  match instanceof (heap s) this CSome, instanceof (heap s) optb CSome with
  | true, true => Option.new_None s
  | true, false => (Return this, s)
  | false, true => (Return optb, s)
  | false, false => Option.new_None s
  end.
Proof.
  intros HO HOb. unfold Option.xor, method, bind.
  rewrite HO, isSome_run by done.
  destruct (instanceof (heap s) this CSome);
    rewrite isSome_run by done;
    by destruct (instanceof (heap s) optb CSome).
Qed.

Lemma flatten_Some_run this s :
  instanceof (heap s) this CSome = true ->
  Option.flatten this s =
  (Return (if instanceof (heap s) (held (heap s) this) CSome
           then held (heap s) this else this), s).
Proof.
  intros H. pose proof (instanceof_Some_Option _ _ H) as HO.
  unfold Option.flatten, method. rewrite HO, mapOrElse_Some_run by done.
  unfold bind, test_instanceof.
  by destruct (instanceof (heap s) (held (heap s) this) CSome).
Qed.

Lemma flatten_not_Some_run this s :
  instanceof (heap s) this COption = true ->
  instanceof (heap s) this CSome = false ->
  Option.flatten this s = Option.new_None s.
Proof.
  intros HO H. unfold Option.flatten, method. rewrite HO.
  unfold Option.mapOrElse. by apply branch_not_Some.
Qed.

End Methods.

(** ** Construction *)

(** C5.  Constructing the base class directly, [new Option(value)], throws
    the OptionError 'Option must be an instance of Some or None' (the
    IllegalConstruction error) for every argument and in every store, while
    construction through a variant, by [new Some(value)], [new None()],
    [some(value)], [none()] or [Option.default()], completes normally and
    so never raises it. *)
Theorem illegal_construction_only_for_base (value : val) (s : store) :
  OptionError.illegalInstantiation =
    OptionError "Option must be an instance of Some or None" /\
  fst (Option.new_Option value s) = Throw OptionError.illegalInstantiation /\
  succeeds (Option.new_Some value) s = true /\
  succeeds Option.new_None s = true /\
  succeeds (some value) s = true /\
  succeeds none s = true /\
  succeeds Option.default s = true.
Proof.
  split; [reflexivity|]. split.
  - by rewrite construct_Option_run.
  - unfold some, none, Option.default, succeeds.
    by rewrite construct_Some_run, construct_None_run.
Qed.

(** C7.  For every value [v], [some(v)] returns a new [Some] on which
    [isSome()] is true and [unwrap()] returns exactly [v]; nothing depends
    on what [v] is, so this holds in particular for [null] and
    [undefined]. *)
Theorem some_wraps_any_value (v : val) (s : store) :
  exists r s',
    some v s = (Return r, s') /\
    fresh_in s s' r /\
    Option.isSome r s' = (Return true, s') /\
    Option.isNone r s' = (Return false, s') /\
    Option.unwrap r s' = (Return v, s').
Proof.
  exists (next s), (push s (Obj CSome v)).
  split; [apply construct_Some_run|].
  split; [apply next_fresh|].
  assert (instanceof (heap (push s (Obj CSome v))) (next s) CSome = true)
    as HS by (by rewrite instanceof_next).
  pose proof (instanceof_Some_Option _ _ HS) as HO.
  rewrite isSome_run, isNone_run, unwrap_Some_run by done.
  by rewrite !instanceof_next, held_next.
Qed.

(** C9.  [Option.default()] returns a newly constructed [None]: the call
    completes in every store, its result is an instance that did not exist
    before, [isNone()] is true of it and [isSome()] is false. *)
Theorem default_is_fresh_None (s : store) :
  exists r s',
    Option.default s = (Return r, s') /\
    fresh_in s s' r /\
    instanceof (heap s') r CNone = true /\
    Option.isNone r s' = (Return true, s') /\
    Option.isSome r s' = (Return false, s').
Proof.
  exists (next s), (push s (Obj CNone VUndefined)).
  split; [apply construct_None_run|].
  split; [apply next_fresh|].
  assert (instanceof (heap (push s (Obj CNone VUndefined))) (next s) CNone
          = true) as HN by (by rewrite instanceof_next).
  pose proof (instanceof_None_Option _ _ HN) as HO.
  rewrite isSome_run, isNone_run by done.
  by rewrite !instanceof_next.
Qed.

(** ** Failure *)

Section Failure.

Implicit Types (s : store) (v this optb : val).

Lemma branch_run {A} this (yes no : M A) s :
  instanceof (heap s) this COption = true ->
  method this (is_some <- Option.isSome this ;;
               if is_some : bool then yes else no) s =
  if instanceof (heap s) this CSome then yes s else no s.
Proof.
  intros HO. destruct (instanceof (heap s) this CSome) eqn:HS.
  - by apply branch_Some.
  - by apply branch_not_Some.
Qed.

Lemma succeeds_ret {A} (a : A) s : succeeds (ret a) s = true.
Proof. reflexivity. Qed.

Lemma succeeds_new_None s : succeeds Option.new_None s = true.
Proof. unfold succeeds. by rewrite construct_None_run. Qed.

Lemma succeeds_new_Some v s : succeeds (Option.new_Some v) s = true.
Proof. unfold succeeds. by rewrite construct_Some_run. Qed.

Lemma succeeds_bind {A B} (m : M A) (k : A -> M B) s :
  succeeds m s = true ->
  (forall a s', succeeds (k a) s' = true) ->
  succeeds (a <- m ;; k a) s = true.
Proof.
  unfold succeeds at 1, bind. intros Hm Hk.
  unfold succeeds at 1. destruct (m s) as [[a|e] s']; [apply Hk|done].
Qed.

Lemma succeeds_unwrap_Some this s :
  instanceof (heap s) this CSome = true ->
  succeeds (Option.unwrap this) s = true.
Proof. intros H. unfold succeeds. by rewrite unwrap_Some_run. Qed.

Lemma succeeds_branch {A} this (yes no : M A) s :
  instanceof (heap s) this COption = true ->
  (instanceof (heap s) this CSome = true -> succeeds yes s = true) ->
  (instanceof (heap s) this CSome = false -> succeeds no s = true) ->
  succeeds (method this (is_some <- Option.isSome this ;;
                         if is_some : bool then yes else no)) s = true.
Proof.
  intros HO Hyes Hno. unfold succeeds in *. rewrite branch_run by done.
  destruct (instanceof (heap s) this CSome); auto.
Qed.

Lemma succeeds_unwrap_then {A} this (k : val -> M A) s :
  instanceof (heap s) this CSome = true ->
  (forall a s', succeeds (k a) s' = true) ->
  succeeds (v <- Option.unwrap this ;; k v) s = true.
Proof.
  intros H Hk. apply succeeds_bind; [|done]. by apply succeeds_unwrap_Some.
Qed.

Section Total.

Variables (this optb fallback : val) (op : val -> M val) (produce : M val).
Variable s : store.
Hypothesis Hthis : instanceof (heap s) this COption = true.
Hypothesis Hoptb : instanceof (heap s) optb COption = true.
Hypothesis Hop : total op.
Hypothesis Hproduce : completes produce.

Lemma succeeds_unwrapOr : succeeds (Option.unwrapOr this fallback) s = true.
Proof.
  apply succeeds_branch; [done| |done]. apply succeeds_unwrap_Some.
Qed.

Lemma succeeds_unwrapOrElse :
  succeeds (Option.unwrapOrElse this produce) s = true.
Proof.
  apply succeeds_branch; [done| |intros _; apply Hproduce].
  apply succeeds_unwrap_Some.
Qed.

Lemma succeeds_map : succeeds (Option.map this op) s = true.
Proof.
  apply succeeds_branch; [done| |intros _; apply succeeds_new_None].
  intros HS. apply succeeds_unwrap_then; [done|].
  intros a s'. apply succeeds_bind; [apply Hop|].
  intros; apply succeeds_new_Some.
Qed.

Lemma succeeds_mapOr : succeeds (Option.mapOr this fallback op) s = true.
Proof.
  apply succeeds_branch; [done| |done].
  intros HS. by apply succeeds_unwrap_then.
Qed.

Lemma succeeds_mapOrElse :
  succeeds (Option.mapOrElse this produce op) s = true.
Proof.
  apply succeeds_branch; [done| |intros _; apply Hproduce].
  intros HS. by apply succeeds_unwrap_then.
Qed.

Lemma succeeds_and : succeeds (Option.and this optb) s = true.
Proof.
  apply succeeds_branch; [done|done|intros _; apply succeeds_new_None].
Qed.

Lemma succeeds_andThen : succeeds (Option.andThen this op) s = true.
Proof.
  apply succeeds_branch; [done| |intros _; apply succeeds_new_None].
  intros HS. by apply succeeds_unwrap_then.
Qed.

Lemma succeeds_filter : succeeds (Option.filter this op) s = true.
Proof.
  unfold succeeds, Option.filter, method. rewrite Hthis.
  apply succeeds_branch; [done| |intros _; apply succeeds_new_None].
  intros HS. apply succeeds_unwrap_then; [done|].
  intros a s'. apply succeeds_bind; [apply Hop|].
  intros keep s''. destruct (truthy keep); [done|apply succeeds_new_None].
Qed.

Lemma succeeds_or : succeeds (Option.or this optb) s = true.
Proof. by apply succeeds_branch. Qed.

Lemma succeeds_orElse : succeeds (Option.orElse this produce) s = true.
Proof.
  apply succeeds_branch; [done|done|intros _; apply Hproduce].
Qed.

Lemma succeeds_xor : succeeds (Option.xor this optb) s = true.
Proof.
  unfold succeeds. rewrite xor_run by done.
  destruct (instanceof (heap s) this CSome),
    (instanceof (heap s) optb CSome);
    try done; apply succeeds_new_None.
Qed.

Lemma succeeds_flatten : succeeds (Option.flatten this) s = true.
Proof.
  unfold succeeds, Option.flatten, method. rewrite Hthis.
  apply succeeds_branch; [done| |intros _; apply succeeds_new_None].
  intros HS. apply succeeds_unwrap_then; [done|].
  intros a s'. unfold succeeds, bind, test_instanceof.
  by destruct (instanceof (heap s') a CSome).
Qed.

End Total.

End Failure.

(** C1.  On a [Some], [unwrap()] returns the held value and leaves the
    store alone; on a [None] it throws the OptionError 'tried to unwrap on
    None' (UnwrapOnAbsent); on an Option it fails if and only if the
    receiver is a [None].  No other method can fail: called on an Option,
    with an Option for [optb] and with supplied functions that do not
    themselves throw, each of [isSome], [isNone], [unwrapOr],
    [unwrapOrElse], [map], [mapOr], [mapOrElse], [and], [andThen],
    [filter], [or], [orElse], [xor] and [flatten] completes normally. *)
Theorem unwrap_is_the_only_failure
    (this optb fallback : val) (op : val -> M val) (produce : M val)
    (s : store) :
  is_option (heap s) this = true ->
  is_option (heap s) optb = true ->
  total op ->
  completes produce ->
  (instanceof (heap s) this CSome = true ->
   Option.unwrap this s = (Return (held (heap s) this), s)) /\
  (instanceof (heap s) this CNone = true ->
   Option.unwrap this s = (Throw OptionError.illegalUnwrap, s)) /\
  (succeeds (Option.unwrap this) s = false <->
   instanceof (heap s) this CNone = true) /\
  succeeds (Option.isSome this) s = true /\
  succeeds (Option.isNone this) s = true /\
  succeeds (Option.unwrapOr this fallback) s = true /\
  succeeds (Option.unwrapOrElse this produce) s = true /\
  succeeds (Option.map this op) s = true /\
  succeeds (Option.mapOr this fallback op) s = true /\
  succeeds (Option.mapOrElse this produce op) s = true /\
  succeeds (Option.and this optb) s = true /\
  succeeds (Option.andThen this op) s = true /\
  succeeds (Option.filter this op) s = true /\
  succeeds (Option.or this optb) s = true /\
  succeeds (Option.orElse this produce) s = true /\
  succeeds (Option.xor this optb) s = true /\
  succeeds (Option.flatten this) s = true.
Proof.
  intros Hthis Hoptb Hop Hproduce.
  pose proof (is_option_Option _ _ Hthis) as HO.
  pose proof (is_option_Option _ _ Hoptb) as HOb.
  split; [apply unwrap_Some_run|].
  split.
  { intros HN. apply unwrap_not_Some_run; [done|].
    destruct (is_option_cases _ _ Hthis) as [[_ E]|[E _]]; congruence. }
  split.
  { unfold succeeds.
    destruct (is_option_cases _ _ Hthis) as [[HS HN]|[HS HN]].
    - rewrite unwrap_Some_run, HN by done. split; discriminate.
    - by rewrite unwrap_not_Some_run, HN. }
  split; [unfold succeeds; by rewrite isSome_run|].
  split; [unfold succeeds; by rewrite isNone_run|].
  auto 20 using succeeds_unwrapOr, succeeds_unwrapOrElse, succeeds_map,
    succeeds_mapOr, succeeds_mapOrElse, succeeds_and, succeeds_andThen,
    succeeds_filter, succeeds_or, succeeds_orElse, succeeds_xor,
    succeeds_flatten.
Qed.

(** ** Identity-preserving and allocating paths *)

Section Fresh.

Implicit Types (s : store) (v this optb : val).

(** What [new None()] gives, in the terms the claims use. *)
Lemma new_None_fresh s :
  exists r s',
    Option.new_None s = (Return r, s') /\
    fresh_in s s' r /\
    instanceof (heap s') r CNone = true /\
    trace s' = trace s.
Proof.
  exists (next s), (push s (Obj CNone VUndefined)).
  split; [apply construct_None_run|].
  split; [apply next_fresh|]. by rewrite instanceof_next.
Qed.

Lemma is_option_None_not_Some h v :
  instanceof h v CNone = true -> instanceof h v CSome = false.
Proof.
  unfold instanceof. destruct v; try done.
  destruct (h !! l) as [[[] ?]|]; done.
Qed.

End Fresh.

(** C2.  [flatten()] on a [Some] whose held value is itself a [Some]
    returns that inner Option; on a [Some] whose held value is not a [Some]
    (so in particular when it is a [None], or no Option at all) it returns
    the receiver itself; on a [None] it returns a newly constructed [None].
    In the first two cases the store is untouched. *)
Theorem flatten_unwraps_only_a_nested_Some (this : val) (s : store) :
  is_option (heap s) this = true ->
  (instanceof (heap s) this CSome = true ->
   instanceof (heap s) (held (heap s) this) CSome = true ->
   Option.flatten this s = (Return (held (heap s) this), s)) /\
  (instanceof (heap s) this CSome = true ->
   instanceof (heap s) (held (heap s) this) CSome = false ->
   Option.flatten this s = (Return this, s)) /\
  (instanceof (heap s) this CSome = true ->
   instanceof (heap s) (held (heap s) this) CNone = true ->
   Option.flatten this s = (Return this, s)) /\
  (instanceof (heap s) this CSome = true ->
   instanceof (heap s) (held (heap s) this) COption = false ->
   Option.flatten this s = (Return this, s)) /\
  (instanceof (heap s) this CNone = true ->
   exists r s',
     Option.flatten this s = (Return r, s') /\
     fresh_in s s' r /\
     instanceof (heap s') r CNone = true).
Proof.
  intros Hthis. pose proof (is_option_Option _ _ Hthis) as HO.
  repeat split.
  - intros HS Hin. by rewrite flatten_Some_run, Hin.
  - intros HS Hin. by rewrite flatten_Some_run, Hin.
  - intros HS Hin. rewrite flatten_Some_run by done.
    by rewrite (is_option_None_not_Some _ _ Hin).
  - intros HS Hin. rewrite flatten_Some_run by done.
    destruct (instanceof (heap s) (held (heap s) this) CSome) eqn:E; [|done].
    apply instanceof_Some_Option in E. congruence.
  - intros HN. rewrite flatten_not_Some_run
      by auto using is_option_None_not_Some.
    destruct (new_None_fresh s) as (r & s' & ? & ? & ? & _). eauto.
Qed.

(** C3.  On an Option, [filter(predicate)] runs exactly as
    [andThen(v => predicate(v) ? this : new None())], and exactly as the
    case-by-case description: when the receiver is a [Some] and the
    predicate, run on the held value, returns a true (truthy) value, the
    result is the receiver itself; when it returns a false (falsy) value,
    the result is a newly constructed [None]; when the receiver is a
    [None], the result is a newly constructed [None] and the predicate is
    not run. *)
Theorem filter_is_andThen_keeping_receiver
    (this : val) (predicate : val -> M val) (s : store) :
  is_option (heap s) this = true ->
  Option.filter this predicate s =
    Option.andThen this
      (fun v => keep <- predicate v ;;
                if truthy keep then ret this else Option.new_None) s /\
  Option.filter this predicate s = filter_spec this predicate s /\
  (forall keep s1,
     instanceof (heap s) this CSome = true ->
     predicate (held (heap s) this) s = (Return keep, s1) ->
     truthy keep = true ->
     Option.filter this predicate s = (Return this, s1)) /\
  (forall keep s1,
     instanceof (heap s) this CSome = true ->
     predicate (held (heap s) this) s = (Return keep, s1) ->
     truthy keep = false ->
     exists r s',
       Option.filter this predicate s = (Return r, s') /\
       fresh_in s1 s' r /\
       instanceof (heap s') r CNone = true) /\
  (instanceof (heap s) this CNone = true ->
   exists r s',
     Option.filter this predicate s = (Return r, s') /\
     fresh_in s s' r /\
     instanceof (heap s') r CNone = true /\
     trace s' = trace s).
Proof.
  intros Hthis. pose proof (is_option_Option _ _ Hthis) as HO.
  split; [unfold Option.filter, method; by rewrite HO|].
  split.
  { unfold filter_spec, bind, test_instanceof.
    destruct (instanceof (heap s) this CSome) eqn:HS.
    - rewrite filter_Some_run by done.
      by rewrite (get_value_run _ _ _ HS).
    - by rewrite filter_not_Some_run. }
  split; [|split].
  - intros keep s1 HS Hp Hk. rewrite filter_Some_run by done.
    unfold bind. by rewrite Hp, Hk.
  - intros keep s1 HS Hp Hk. rewrite filter_Some_run by done.
    unfold bind. rewrite Hp, Hk.
    destruct (new_None_fresh s1) as (r & s' & ? & ? & ? & _). eauto.
  - intros HN. rewrite filter_not_Some_run
      by auto using is_option_None_not_Some.
    apply new_None_fresh.
Qed.

(** C4.  For Options [a] and [b], [a.xor(b)] completes, and its result is
    a [Some] exactly when one of [a], [b] is a [Some] and the other is not;
    it is then that operand itself, and nothing was allocated.  When both
    or neither are [Some] the result is a [None], newly constructed and so
    distinct from both operands. *)
Theorem xor_keeps_the_single_Some (a b : val) (s : store) :
  is_option (heap s) a = true ->
  is_option (heap s) b = true ->
  exists r s',
    Option.xor a b s = (Return r, s') /\
    (instanceof (heap s') r CSome = true <->
     xorb (instanceof (heap s) a CSome) (instanceof (heap s) b CSome)
     = true) /\
    (instanceof (heap s) a CSome = true ->
     instanceof (heap s) b CNone = true -> r = a /\ s' = s) /\
    (instanceof (heap s) a CNone = true ->
     instanceof (heap s) b CSome = true -> r = b /\ s' = s) /\
    (xorb (instanceof (heap s) a CSome) (instanceof (heap s) b CSome)
     = false ->
     instanceof (heap s') r CNone = true /\
     fresh_in s s' r /\ r <> a /\ r <> b).
Proof.
  intros Ha Hb.
  pose proof (is_option_Option _ _ Ha) as HOa.
  pose proof (is_option_Option _ _ Hb) as HOb.
  rewrite xor_run by done.
  destruct (is_option_cases _ _ Ha) as [[HSa HNa]|[HSa HNa]];
    destruct (is_option_cases _ _ Hb) as [[HSb HNb]|[HSb HNb]];
    rewrite HSa, HSb, ?HNa, ?HNb; simpl.
  - destruct (new_None_fresh s) as (r & s' & -> & Hf & HN & _).
    exists r, s'. split; [done|].
    rewrite (is_option_None_not_Some _ _ HN).
    do 3 (split; [done|]). intros _.
    repeat split; eauto using fresh_in_not_instance.
  - exists a, s. by rewrite HSa.
  - exists b, s. by rewrite HSb.
  - destruct (new_None_fresh s) as (r & s' & -> & Hf & HN & _).
    exists r, s'. split; [done|].
    rewrite (is_option_None_not_Some _ _ HN).
    do 3 (split; [done|]). intros _.
    repeat split; eauto using fresh_in_not_instance.
Qed.

(** C6.  On a [Some], [map(transform)] runs [transform] on the held value
    and wraps what it returns in a newly constructed [Some], which is not
    the receiver; on a [None] it returns a newly constructed [None] and
    does not involve [transform].  Passing an instrumented function shows
    the count: its log gains exactly the held value when the receiver is a
    [Some] (one invocation) and nothing when it is a [None]. *)
Theorem map_wraps_the_transformed_value
    (this : val) (transform : val -> M val) (f : val -> val) (s : store) :
  is_option (heap s) this = true ->
  (instanceof (heap s) this CSome = true ->
   Option.map this transform s =
     (u <- transform (held (heap s) this) ;; Option.new_Some u) s) /\
  (forall u s1,
     instanceof (heap s) this CSome = true ->
     transform (held (heap s) this) s = (Return u, s1) ->
     heap s `prefix_of` heap s1 ->
     exists r s',
       Option.map this transform s = (Return r, s') /\
       fresh_in s1 s' r /\ r <> this /\
       instanceof (heap s') r CSome = true /\
       held (heap s') r = u) /\
  (instanceof (heap s) this CNone = true ->
   Option.map this transform s = Option.new_None s /\
   exists r s',
     Option.map this transform s = (Return r, s') /\
     fresh_in s s' r /\ r <> this /\
     instanceof (heap s') r CNone = true) /\
  (instanceof (heap s) this CSome = true ->
   Option.map this (counted f) s =
     (Return (next s),
      {| heap := heap s ++ [Obj CSome (f (held (heap s) this))];
         trace := trace s ++ [held (heap s) this] |})) /\
  (instanceof (heap s) this CNone = true ->
   Option.map this (counted f) s =
     (Return (next s),
      {| heap := heap s ++ [Obj CNone VUndefined]; trace := trace s |})).
Proof.
  intros Hthis. pose proof (is_option_Option _ _ Hthis) as HO.
  assert (forall op, instanceof (heap s) this CNone = true ->
                     Option.map this op s = Option.new_None s) as Hnone.
  { intros op HN. unfold Option.map.
    by rewrite branch_not_Some by auto using is_option_None_not_Some. }
  split; [apply map_Some_run|]. split; [|split; [|split]].
  - intros u s1 HS Hu Hpre. rewrite map_Some_run by done.
    unfold bind. rewrite Hu, construct_Some_run.
    exists (next s1), (push s1 (Obj CSome u)).
    split; [done|]. split; [apply next_fresh|].
    rewrite instanceof_next, held_next. repeat split; try done.
    apply (fresh_in_not_instance s1 (push s1 (Obj CSome u)) _ _ CSome);
      [apply next_fresh|]. by eapply instanceof_prefix.
  - intros HN. split; [by apply Hnone|]. rewrite Hnone by done.
    destruct (new_None_fresh s) as (r & s' & ? & Hf & ? & _).
    exists r, s'. repeat split; eauto using fresh_in_not_instance.
  - intros HS. rewrite map_Some_run by done.
    unfold bind, counted. by rewrite construct_Some_run.
  - intros HN. rewrite Hnone by done. by rewrite construct_None_run.
Qed.

(** C10.  For Options [a] and [b], [a.xor(b)] and [b.xor(a)], run from the
    same store, agree as values: both results are [Some] holding the same
    value, or both are [None]. *)
Theorem xor_commutes_on_values (a b : val) (s : store) :
  is_option (heap s) a = true ->
  is_option (heap s) b = true ->
  exists r1 s1 r2 s2,
    Option.xor a b s = (Return r1, s1) /\
    Option.xor b a s = (Return r2, s2) /\
    agree s1 r1 s2 r2.
Proof.
  intros Ha Hb.
  pose proof (is_option_Option _ _ Ha) as HOa.
  pose proof (is_option_Option _ _ Hb) as HOb.
  rewrite !xor_run by done.
  destruct (new_None_fresh s) as (r & s' & Hnew & _ & HN & _).
  destruct (is_option_cases _ _ Ha) as [[HSa HNa]|[HSa HNa]];
    destruct (is_option_cases _ _ Hb) as [[HSb HNb]|[HSb HNb]];
    rewrite HSa, HSb.
  - rewrite Hnew. exists r, s', r, s'. do 2 (split; [done|]). by right.
  - exists a, s, a, s. do 2 (split; [done|]). by left.
  - exists b, s, b, s. do 2 (split; [done|]). by left.
  - rewrite Hnew. exists r, s', r, s'. do 2 (split; [done|]). by right.
Qed.

(** ** The two variant states *)

Section Variants.

Implicit Types (s : store) (v this optb : val).

(** Answering [isSome()] and [isNone()] oppositely is the same as being an
    instance of [Some] or of [None]. *)
Lemma one_variant_is_option s v : one_variant s v = is_option (heap s) v.
Proof.
  unfold one_variant, is_option, Option.isSome, Option.isNone, method,
    test_instanceof, instanceof.
  destruct v; try done. destruct (heap s !! l) as [[[] ?]|]; done.
Qed.

Lemma one_variant_prefix s s' v :
  heap s `prefix_of` heap s' ->
  one_variant s v = true -> one_variant s' v = true.
Proof.
  rewrite !one_variant_is_option. unfold is_option.
  intros Hpre [H|H]%orb_true_iff; apply orb_true_iff;
    eauto using instanceof_prefix.
Qed.

Lemma one_variant_new s o :
  cls o = CSome \/ cls o = CNone -> one_variant (push s o) (next s) = true.
Proof.
  rewrite one_variant_is_option. unfold is_option.
  rewrite !instanceof_next. by intros [-> | ->].
Qed.

Lemma bind_Return_inv {A B} (m : M A) (k : A -> M B) s r s' :
  (a <- m ;; k a) s = (Return r, s') ->
  exists a s1, m s = (Return a, s1) /\ k a s1 = (Return r, s').
Proof.
  unfold bind. destruct (m s) as [[a|e] s1]; [eauto|done].
Qed.

Lemma new_None_variant s r s' :
  Option.new_None s = (Return r, s') -> one_variant s' r = true.
Proof.
  rewrite construct_None_run. intros [= <- <-].
  apply one_variant_new. by right.
Qed.

Lemma new_Some_variant u s r s' :
  Option.new_Some u s = (Return r, s') -> one_variant s' r = true.
Proof.
  rewrite construct_Some_run. intros [= <- <-].
  apply one_variant_new. by left.
Qed.

End Variants.

(** C8.  Every Option is in exactly one variant state: of [isSome()] and
    [isNone()] exactly one answers [true].  This holds of what [some],
    [none] and [Option.default] construct, it keeps holding of an Option
    however the store grows afterwards, and it holds of the Option returned
    by each of [map], [and], [andThen], [filter], [or], [orElse], [xor] and
    [flatten] when the receiver and the Option arguments are in one variant
    state and the supplied functions return Options and only allocate. *)
Theorem every_option_is_in_exactly_one_variant
    (this optb v : val) (op chain predicate : val -> M val)
    (produce : M val) (s : store) :
  one_variant s this = true ->
  one_variant s optb = true ->
  (forall a, yields_option (chain a)) ->
  (forall a, allocates_only (predicate a)) ->
  yields_option produce ->
  (exists r s', some v s = (Return r, s') /\ one_variant s' r = true) /\
  (exists r s', none s = (Return r, s') /\ one_variant s' r = true) /\
  (exists r s',
     Option.default s = (Return r, s') /\ one_variant s' r = true) /\
  (exists a b,
     Option.isSome this s = (Return a, s) /\
     Option.isNone this s = (Return b, s) /\ a = negb b) /\
  (forall s', heap s `prefix_of` heap s' -> one_variant s' this = true) /\
  (forall r s',
     Option.map this op s = (Return r, s') -> one_variant s' r = true) /\
  (forall r s',
     Option.and this optb s = (Return r, s') -> one_variant s' r = true) /\
  (forall r s',
     Option.andThen this chain s = (Return r, s') ->
     one_variant s' r = true) /\
  (forall r s',
     Option.filter this predicate s = (Return r, s') ->
     one_variant s' r = true) /\
  (forall r s',
     Option.or this optb s = (Return r, s') -> one_variant s' r = true) /\
  (forall r s',
     Option.orElse this produce s = (Return r, s') ->
     one_variant s' r = true) /\
  (forall r s',
     Option.xor this optb s = (Return r, s') -> one_variant s' r = true) /\
  (forall r s',
     Option.flatten this s = (Return r, s') -> one_variant s' r = true).
Proof.
  intros Hthis Hoptb Hchain Hpred Hproduce.
  pose proof Hthis as Hopt. rewrite one_variant_is_option in Hopt.
  pose proof Hoptb as Hoptb'. rewrite one_variant_is_option in Hoptb'.
  pose proof (is_option_Option _ _ Hopt) as HO.
  pose proof (is_option_Option _ _ Hoptb') as HOb.
  split.
  { exists (next s), (push s (Obj CSome v)).
    split; [apply construct_Some_run|]. apply one_variant_new. by left. }
  split.
  { exists (next s), (push s (Obj CNone VUndefined)).
    split; [apply construct_None_run|]. apply one_variant_new. by right. }
  split.
  { exists (next s), (push s (Obj CNone VUndefined)).
    split; [apply construct_None_run|]. apply one_variant_new. by right. }
  split.
  { rewrite isSome_run, isNone_run by done. do 2 eexists.
    do 2 (split; [done|]).
    by destruct (is_option_cases _ _ Hopt) as [[-> ->]|[-> ->]]. }
  split; [intros s' Hpre; by eapply one_variant_prefix|].
  unfold Option.map, Option.and, Option.andThen, Option.or, Option.orElse.
  rewrite !branch_run, xor_run by done.
  destruct (instanceof (heap s) this CSome) eqn:HS.
  - rewrite filter_Some_run, flatten_Some_run by done.
    rewrite !bind_unwrap_Some by done.
    repeat split; intros r s'.
    + intros (u & s1 & _ & Hnew)%bind_Return_inv.
      by eapply new_Some_variant.
    + by intros [= <- <-].
    + by intros [_ ?]%Hchain.
    + intros (keep & s1 & Hp & Hk)%bind_Return_inv.
      destruct (truthy keep).
      * injection Hk as <- <-.
        eapply one_variant_prefix; [|done]. by eapply Hpred.
      * by eapply new_None_variant.
    + by intros [= <- <-].
    + by intros [= <- <-].
    + destruct (instanceof (heap s) optb CSome).
      * apply new_None_variant.
      * by intros [= <- <-].
    + intros [= <- <-].
      destruct (instanceof (heap s) (held (heap s) this) CSome) eqn:Hin;
        [|done].
      rewrite one_variant_is_option. unfold is_option. by rewrite Hin.
  - rewrite filter_not_Some_run, flatten_not_Some_run by done.
    repeat split; intros r s'; try apply new_None_variant.
    + by intros [= <- <-].
    + by intros [_ ?]%Hproduce.
    + destruct (instanceof (heap s) optb CSome).
      * by intros [= <- <-].
      * apply new_None_variant.
Qed.

(** ** The test-suite, replayed *)

(** Some cases of the repository's mocha suite, run from the empty store. *)

Example test_throws_if_instantiated_directly :
  fst (Option.new_Option (VStr "") {| heap := []; trace := [] |}) =
  Throw (OptionError "Option must be an instance of Some or None").
Proof. reflexivity. Qed.

Example test_unwrap_Some :
  fst ((a <- Option.new_Some (VStr "foo") ;; Option.unwrap a)
         {| heap := []; trace := [] |}) = Return (VStr "foo").
Proof. reflexivity. Qed.

Example test_unwrap_None :
  fst ((a <- Option.new_None ;; Option.unwrap a)
         {| heap := []; trace := [] |}) =
  Throw (OptionError "tried to unwrap on None").
Proof. reflexivity. Qed.

Example test_map_new_instance :
  fst ((a <- Option.new_Some (VStr "foo") ;;
        b <- Option.map a same ;;
        is_some <- Option.isSome b ;;
        ret (a, b, is_some)) {| heap := []; trace := [] |}) =
  Return (VRef 0, VRef 1, true).
Proof. reflexivity. Qed.

Example test_filter_same_instance :
  fst ((a <- Option.new_Some (VStr "foo") ;;
        b <- Option.filter a is_foo ;;
        ret (a, b)) {| heap := []; trace := [] |}) =
  Return (VRef 0, VRef 0).
Proof. reflexivity. Qed.

Example test_xor_both_None :
  fst ((a <- Option.new_None ;;
        b <- Option.new_None ;;
        c <- Option.xor a b ;;
        is_none <- Option.isNone c ;;
        ret (a, b, c, is_none)) {| heap := []; trace := [] |}) =
  Return (VRef 0, VRef 1, VRef 2, true).
Proof. reflexivity. Qed.

Example test_flatten_nested_Some :
  fst ((a <- Option.new_Some (VStr "foo") ;;
        b <- Option.new_Some a ;;
        c <- Option.flatten b ;;
        Option.unwrap c) {| heap := []; trace := [] |}) =
  Return (VStr "foo").
Proof. reflexivity. Qed.

(** Not in the test-suite: a [Some] holding a [None] is returned as it is. *)
Example flatten_Some_of_None :
  Option.flatten (VRef 3) sample = (Return (VRef 3), sample) /\
  Option.isSome (VRef 3) sample = (Return true, sample) /\
  Option.isNone (held (heap sample) (VRef 3)) sample = (Return true, sample).
Proof. repeat split. Qed.

Example some_null_is_Some :
  fst ((a <- some VNull ;;
        is_some <- Option.isSome a ;;
        v <- Option.unwrap a ;;
        ret (is_some, v)) {| heap := []; trace := [] |}) =
  Return (true, VNull).
Proof. reflexivity. Qed.

(** ** The theorems at work on the sample store *)

Section Callbacks.

Lemma wrap_total : total wrap.
Proof. intros v s. apply succeeds_new_Some. Qed.

Lemma new_None_completes : completes Option.new_None.
Proof. intros s. apply succeeds_new_None. Qed.

Lemma wrap_yields_option a : yields_option (wrap a).
Proof.
  intros s r s'. unfold wrap. rewrite construct_Some_run.
  intros [= <- <-]. split; [apply push_prefix|].
  apply one_variant_new. by left.
Qed.

Lemma new_None_yields_option : yields_option Option.new_None.
Proof.
  intros s r s'. rewrite construct_None_run.
  intros [= <- <-]. split; [apply push_prefix|].
  apply one_variant_new. by right.
Qed.

Lemma is_foo_allocates_only a : allocates_only (is_foo a).
Proof. intros s r s' [= _ <-]. done. Qed.

End Callbacks.

Lemma unwrap_is_the_only_failure_witness :
  is_option (heap sample) (VRef 1) = true /\
  is_option (heap sample) (VRef 0) = true /\
  (instanceof (heap sample) (VRef 1) CSome = true ->
   Option.unwrap (VRef 1) sample =
     (Return (held (heap sample) (VRef 1)), sample)) /\
  (instanceof (heap sample) (VRef 1) CNone = true ->
   Option.unwrap (VRef 1) sample =
     (Throw OptionError.illegalUnwrap, sample)) /\
  (succeeds (Option.unwrap (VRef 1)) sample = false <->
   instanceof (heap sample) (VRef 1) CNone = true) /\
  succeeds (Option.isSome (VRef 1)) sample = true /\
  succeeds (Option.isNone (VRef 1)) sample = true /\
  succeeds (Option.unwrapOr (VRef 1) (VStr "baz")) sample = true /\
  succeeds (Option.unwrapOrElse (VRef 1) Option.new_None) sample = true /\
  succeeds (Option.map (VRef 1) wrap) sample = true /\
  succeeds (Option.mapOr (VRef 1) (VStr "baz") wrap) sample = true /\
  succeeds (Option.mapOrElse (VRef 1) Option.new_None wrap) sample = true /\
  succeeds (Option.and (VRef 1) (VRef 0)) sample = true /\
  succeeds (Option.andThen (VRef 1) wrap) sample = true /\
  succeeds (Option.filter (VRef 1) wrap) sample = true /\
  succeeds (Option.or (VRef 1) (VRef 0)) sample = true /\
  succeeds (Option.orElse (VRef 1) Option.new_None) sample = true /\
  succeeds (Option.xor (VRef 1) (VRef 0)) sample = true /\
  succeeds (Option.flatten (VRef 1)) sample = true.
Proof.
  split; [reflexivity|]. split; [reflexivity|].
  apply (unwrap_is_the_only_failure (VRef 1) (VRef 0) (VStr "baz") wrap
           Option.new_None sample);
    [reflexivity | reflexivity | exact wrap_total | exact new_None_completes].
Defined.

Lemma flatten_unwraps_only_a_nested_Some_witness :
  is_option (heap sample) (VRef 3) = true /\
  (instanceof (heap sample) (VRef 3) CSome = true ->
   instanceof (heap sample) (held (heap sample) (VRef 3)) CSome = true ->
   Option.flatten (VRef 3) sample =
     (Return (held (heap sample) (VRef 3)), sample)) /\
  (instanceof (heap sample) (VRef 3) CSome = true ->
   instanceof (heap sample) (held (heap sample) (VRef 3)) CSome = false ->
   Option.flatten (VRef 3) sample = (Return (VRef 3), sample)) /\
  (instanceof (heap sample) (VRef 3) CSome = true ->
   instanceof (heap sample) (held (heap sample) (VRef 3)) CNone = true ->
   Option.flatten (VRef 3) sample = (Return (VRef 3), sample)) /\
  (instanceof (heap sample) (VRef 3) CSome = true ->
   instanceof (heap sample) (held (heap sample) (VRef 3)) COption = false ->
   Option.flatten (VRef 3) sample = (Return (VRef 3), sample)) /\
  (instanceof (heap sample) (VRef 3) CNone = true ->
   exists r s',
     Option.flatten (VRef 3) sample = (Return r, s') /\
     fresh_in sample s' r /\
     instanceof (heap s') r CNone = true).
Proof.
  split; [reflexivity|].
  apply (flatten_unwraps_only_a_nested_Some (VRef 3) sample); reflexivity.
Defined.

Lemma filter_is_andThen_keeping_receiver_witness :
  is_option (heap sample) (VRef 0) = true /\
  Option.filter (VRef 0) is_foo sample =
    Option.andThen (VRef 0)
      (fun v => keep <- is_foo v ;;
                if truthy keep then ret (VRef 0) else Option.new_None)
      sample /\
  Option.filter (VRef 0) is_foo sample = filter_spec (VRef 0) is_foo sample /\
  (forall keep s1,
     instanceof (heap sample) (VRef 0) CSome = true ->
     is_foo (held (heap sample) (VRef 0)) sample = (Return keep, s1) ->
     truthy keep = true ->
     Option.filter (VRef 0) is_foo sample = (Return (VRef 0), s1)) /\
  (forall keep s1,
     instanceof (heap sample) (VRef 0) CSome = true ->
     is_foo (held (heap sample) (VRef 0)) sample = (Return keep, s1) ->
     truthy keep = false ->
     exists r s',
       Option.filter (VRef 0) is_foo sample = (Return r, s') /\
       fresh_in s1 s' r /\
       instanceof (heap s') r CNone = true) /\
  (instanceof (heap sample) (VRef 0) CNone = true ->
   exists r s',
     Option.filter (VRef 0) is_foo sample = (Return r, s') /\
     fresh_in sample s' r /\
     instanceof (heap s') r CNone = true /\
     trace s' = trace sample).
Proof.
  split; [reflexivity|].
  apply (filter_is_andThen_keeping_receiver (VRef 0) is_foo sample);
    reflexivity.
Defined.

Lemma xor_keeps_the_single_Some_witness :
  is_option (heap sample) (VRef 0) = true /\
  is_option (heap sample) (VRef 1) = true /\
  exists r s',
    Option.xor (VRef 0) (VRef 1) sample = (Return r, s') /\
    (instanceof (heap s') r CSome = true <->
     xorb (instanceof (heap sample) (VRef 0) CSome)
          (instanceof (heap sample) (VRef 1) CSome) = true) /\
    (instanceof (heap sample) (VRef 0) CSome = true ->
     instanceof (heap sample) (VRef 1) CNone = true ->
     r = VRef 0 /\ s' = sample) /\
    (instanceof (heap sample) (VRef 0) CNone = true ->
     instanceof (heap sample) (VRef 1) CSome = true ->
     r = VRef 1 /\ s' = sample) /\
    (xorb (instanceof (heap sample) (VRef 0) CSome)
          (instanceof (heap sample) (VRef 1) CSome) = false ->
     instanceof (heap s') r CNone = true /\
     fresh_in sample s' r /\ r <> VRef 0 /\ r <> VRef 1).
Proof.
  split; [reflexivity|]. split; [reflexivity|].
  apply (xor_keeps_the_single_Some (VRef 0) (VRef 1) sample); reflexivity.
Defined.

Lemma map_wraps_the_transformed_value_witness :
  is_option (heap sample) (VRef 0) = true /\
  (instanceof (heap sample) (VRef 0) CSome = true ->
   Option.map (VRef 0) same sample =
     (u <- same (held (heap sample) (VRef 0)) ;; Option.new_Some u) sample) /\
  (forall u s1,
     instanceof (heap sample) (VRef 0) CSome = true ->
     same (held (heap sample) (VRef 0)) sample = (Return u, s1) ->
     heap sample `prefix_of` heap s1 ->
     exists r s',
       Option.map (VRef 0) same sample = (Return r, s') /\
       fresh_in s1 s' r /\ r <> VRef 0 /\
       instanceof (heap s') r CSome = true /\
       held (heap s') r = u) /\
  (instanceof (heap sample) (VRef 0) CNone = true ->
   Option.map (VRef 0) same sample = Option.new_None sample /\
   exists r s',
     Option.map (VRef 0) same sample = (Return r, s') /\
     fresh_in sample s' r /\ r <> VRef 0 /\
     instanceof (heap s') r CNone = true) /\
  (instanceof (heap sample) (VRef 0) CSome = true ->
   Option.map (VRef 0) (counted (fun x => x)) sample =
     (Return (next sample),
      {| heap := heap sample ++
                 [Obj CSome ((fun x => x) (held (heap sample) (VRef 0)))];
         trace := trace sample ++ [held (heap sample) (VRef 0)] |})) /\
  (instanceof (heap sample) (VRef 0) CNone = true ->
   Option.map (VRef 0) (counted (fun x => x)) sample =
     (Return (next sample),
      {| heap := heap sample ++ [Obj CNone VUndefined];
         trace := trace sample |})).
Proof.
  split; [reflexivity|].
  apply (map_wraps_the_transformed_value (VRef 0) same (fun x => x) sample);
    reflexivity.
Defined.

Lemma xor_commutes_on_values_witness :
  is_option (heap sample) (VRef 0) = true /\
  is_option (heap sample) (VRef 1) = true /\
  exists r1 s1 r2 s2,
    Option.xor (VRef 0) (VRef 1) sample = (Return r1, s1) /\
    Option.xor (VRef 1) (VRef 0) sample = (Return r2, s2) /\
    agree s1 r1 s2 r2.
Proof.
  split; [reflexivity|]. split; [reflexivity|].
  apply (xor_commutes_on_values (VRef 0) (VRef 1) sample); reflexivity.
Defined.

Lemma every_option_is_in_exactly_one_variant_witness :
  one_variant sample (VRef 2) = true /\
  one_variant sample (VRef 1) = true /\
  (exists r s',
     some VNull sample = (Return r, s') /\ one_variant s' r = true) /\
  (exists r s', none sample = (Return r, s') /\ one_variant s' r = true) /\
  (exists r s',
     Option.default sample = (Return r, s') /\ one_variant s' r = true) /\
  (exists a b,
     Option.isSome (VRef 2) sample = (Return a, sample) /\
     Option.isNone (VRef 2) sample = (Return b, sample) /\ a = negb b) /\
  (forall s',
     heap sample `prefix_of` heap s' -> one_variant s' (VRef 2) = true) /\
  (forall r s',
     Option.map (VRef 2) same sample = (Return r, s') ->
     one_variant s' r = true) /\
  (forall r s',
     Option.and (VRef 2) (VRef 1) sample = (Return r, s') ->
     one_variant s' r = true) /\
  (forall r s',
     Option.andThen (VRef 2) wrap sample = (Return r, s') ->
     one_variant s' r = true) /\
  (forall r s',
     Option.filter (VRef 2) is_foo sample = (Return r, s') ->
     one_variant s' r = true) /\
  (forall r s',
     Option.or (VRef 2) (VRef 1) sample = (Return r, s') ->
     one_variant s' r = true) /\
  (forall r s',
     Option.orElse (VRef 2) Option.new_None sample = (Return r, s') ->
     one_variant s' r = true) /\
  (forall r s',
     Option.xor (VRef 2) (VRef 1) sample = (Return r, s') ->
     one_variant s' r = true) /\
  (forall r s',
     Option.flatten (VRef 2) sample = (Return r, s') ->
     one_variant s' r = true).
Proof.
  split; [reflexivity|]. split; [reflexivity|].
  apply (every_option_is_in_exactly_one_variant (VRef 2) (VRef 1) VNull
           same wrap is_foo Option.new_None sample);
    [reflexivity | reflexivity | exact wrap_yields_option
    | exact is_foo_allocates_only | exact new_None_yields_option].
Defined.

(** * Further properties of [Option.ts] *)

(** ** Defaults: [unwrapOr], [unwrapOrElse], [mapOr], [mapOrElse], [orElse] *)

Section Defaults.

Implicit Types (s : store) (v this optb fallback : val).

Lemma bind_ret_r {A} (m : M A) s : (a <- m ;; ret a) s = m s.
Proof. unfold bind, ret. by destruct (m s) as [[] ?]. Qed.

Lemma method_ext {A} this (m m' : M A) s :
  (instanceof (heap s) this COption = true -> m s = m' s) ->
  method this m s = method this m' s.
Proof.
  intros H. unfold method.
  destruct (instanceof (heap s) this COption); [by apply H|done].
Qed.

(** Two bodies of the shape [if (this.isSome()) ... else ...] that agree
    branch by branch run alike, whatever the receiver. *)
Lemma branch_ext {A} this (yes yes' no no' : M A) s :
  (instanceof (heap s) this CSome = true -> yes s = yes' s) ->
  (instanceof (heap s) this CSome = false -> no s = no' s) ->
  method this (is_some <- Option.isSome this ;;
               if is_some : bool then yes else no) s =
  method this (is_some <- Option.isSome this ;;
               if is_some : bool then yes' else no') s.
Proof.
  intros Hyes Hno. apply method_ext. intros HO.
  unfold bind. rewrite isSome_run by done.
  destruct (instanceof (heap s) this CSome); auto.
Qed.

End Defaults.

(** X1.  On an Option, [unwrapOr(fallback)] returns the held value of a
    [Some] and [fallback] on a [None]; it never throws and leaves the store
    as it was. *)
Theorem unwrapOr_gives_value_or_fallback
    (this fallback : val) (s : store) :
  is_option (heap s) this = true ->
  Option.unwrapOr this fallback s =
    (Return (if instanceof (heap s) this CSome
             then held (heap s) this else fallback), s).
Proof.
  intros Hthis. pose proof (is_option_Option _ _ Hthis) as HO.
  unfold Option.unwrapOr. rewrite branch_run by done.
  destruct (instanceof (heap s) this CSome) eqn:HS; [|done].
  by apply unwrap_Some_run.
Qed.

(** X2.  The fallback functions of [unwrapOrElse], [mapOrElse] and [orElse]
    are run only on a [None]: on a [Some] the call does not depend on the
    function at all (so it completes even when the function would throw),
    and on a [None] the call is exactly one run of it.  Likewise the
    mapping function of [mapOrElse] is run only on a [Some]. *)
Theorem fallback_functions_run_only_on_None
    (this : val) (produce : M val) (op : val -> M val) (s : store) :
  is_option (heap s) this = true ->
  (instanceof (heap s) this CSome = true ->
   Option.unwrapOrElse this produce s = (Return (held (heap s) this), s) /\
   Option.mapOrElse this produce op s = op (held (heap s) this) s /\
   Option.orElse this produce s = (Return this, s)) /\
  (instanceof (heap s) this CNone = true ->
   Option.unwrapOrElse this produce s = produce s /\
   Option.mapOrElse this produce op s = produce s /\
   Option.orElse this produce s = produce s).
Proof.
  intros Hthis. pose proof (is_option_Option _ _ Hthis) as HO.
  unfold Option.unwrapOrElse, Option.mapOrElse, Option.orElse.
  rewrite !branch_run by done.
  split; intros H.
  - rewrite H, bind_unwrap_Some, unwrap_Some_run by done. done.
  - by rewrite (is_option_None_not_Some _ _ H).
Qed.

(** X3.  Every method that branches on [isSome()] is an instance of
    [mapOrElse]: for every receiver and argument, [unwrapOr], [unwrapOrElse],
    [map], [mapOr], [and], [andThen], [or] and [orElse] run exactly as
    [mapOrElse] with the corresponding fallback and mapping function. *)
Theorem branching_methods_are_mapOrElse
    (this optb fallback : val) (op : val -> M val) (produce : M val)
    (s : store) :
  Option.unwrapOr this fallback s =
    Option.mapOrElse this (ret fallback) (fun v => ret v) s /\
  Option.unwrapOrElse this produce s =
    Option.mapOrElse this produce (fun v => ret v) s /\
  Option.map this op s =
    Option.mapOrElse this Option.new_None
      (fun v => u <- op v ;; Option.new_Some u) s /\
  Option.mapOr this fallback op s =
    Option.mapOrElse this (ret fallback) op s /\
  Option.and this optb s =
    Option.mapOrElse this Option.new_None (fun _ => ret optb) s /\
  Option.andThen this op s = Option.mapOrElse this Option.new_None op s /\
  Option.or this optb s =
    Option.mapOrElse this (ret optb) (fun _ => ret this) s /\
  Option.orElse this produce s =
    Option.mapOrElse this produce (fun _ => ret this) s.
Proof.
  unfold Option.unwrapOr, Option.unwrapOrElse, Option.map, Option.mapOr,
    Option.and, Option.andThen, Option.or, Option.orElse, Option.mapOrElse.
  repeat split; apply branch_ext; intros HS; try done;
    rewrite ?bind_ret_r; try rewrite bind_unwrap_Some by done; done.
Qed.

(** X4.  For Options [a] and [b]: [a.and(b)] is a [Some] exactly when both
    are, and is then [b] itself; when [a] is a [None] it is a newly
    constructed [None].  [a.or(b)] is a [Some] exactly when one of them is;
    it is [a] itself when [a] is a [Some] and [b] itself otherwise, and it
    never allocates. *)
Theorem and_or_truth_table (a b : val) (s : store) :
  is_option (heap s) a = true ->
  is_option (heap s) b = true ->
  (exists r s',
     Option.and a b s = (Return r, s') /\
     instanceof (heap s') r CSome =
       instanceof (heap s) a CSome && instanceof (heap s) b CSome /\
     is_option (heap s') r = true /\
     (instanceof (heap s) a CSome = true -> r = b /\ s' = s) /\
     (instanceof (heap s) a CNone = true -> fresh_in s s' r)) /\
  Option.or a b s =
    (Return (if instanceof (heap s) a CSome then a else b), s) /\
  instanceof (heap s)
    (if instanceof (heap s) a CSome then a else b) CSome =
    instanceof (heap s) a CSome || instanceof (heap s) b CSome.
Proof.
  intros Ha Hb. pose proof (is_option_Option _ _ Ha) as HOa.
  unfold Option.and, Option.or. rewrite !branch_run by done.
  destruct (is_option_cases _ _ Ha) as [[HSa HNa]|[HSa HNa]];
    rewrite HSa.
  - split; [|by rewrite HSa]. exists b, s.
    repeat split; try done. congruence.
  - split; [|done].
    destruct (new_None_fresh s) as (r & s' & -> & Hf & HN & _).
    exists r, s'. split; [done|].
    rewrite (is_option_None_not_Some _ _ HN). unfold is_option.
    rewrite HN, orb_true_r. repeat split; done.
Qed.

(** ** Chaining: [andThen], [map], [flatten] *)

Section Chaining.

Implicit Types (s : store) (v this : val) (o : object) (c : class).

(** Allocation does not change what is known of an existing object. *)
Lemma instanceof_push s o v c c0 :
  instanceof (heap s) v c0 = true ->
  instanceof (heap (push s o)) v c = instanceof (heap s) v c.
Proof.
  unfold instanceof, push. simpl. destruct v; try done.
  destruct (heap s !! l) as [o'|] eqn:E; [|done].
  intros _. by rewrite (lookup_push_old _ _ _ _ E).
Qed.

Lemma held_push s o v c0 :
  instanceof (heap s) v c0 = true ->
  held (heap (push s o)) v = held (heap s) v.
Proof.
  intros H. eapply held_prefix; [apply push_prefix|done].
Qed.

Lemma agree_refl_Some s r s' r' :
  instanceof (heap s) r CSome = true ->
  instanceof (heap s') r' CSome = true ->
  held (heap s) r = held (heap s') r' ->
  agree s r s' r'.
Proof. intros. left. auto. Qed.

Lemma agree_None s r s' r' :
  instanceof (heap s) r CNone = true ->
  instanceof (heap s') r' CNone = true ->
  agree s r s' r'.
Proof. intros. right. auto. Qed.

Lemma map_pure_Some_run this (f : val -> val) s :
  instanceof (heap s) this CSome = true ->
  Option.map this (pure_fn f) s =
  (Return (next s), push s (Obj CSome (f (held (heap s) this)))).
Proof.
  intros HS. rewrite map_Some_run by done.
  unfold bind, pure_fn, ret. by rewrite construct_Some_run.
Qed.

Lemma map_not_Some_run this (op : val -> M val) s :
  instanceof (heap s) this COption = true ->
  instanceof (heap s) this CSome = false ->
  Option.map this op s = (Return (next s), push s (Obj CNone VUndefined)).
Proof.
  intros HO HS. unfold Option.map.
  by rewrite branch_not_Some, construct_None_run.
Qed.

(** The next reference to be allocated is no existing instance. *)
Lemma next_not_instance s v c :
  instanceof (heap s) v c = true -> next s <> v.
Proof.
  intros H. apply (fresh_in_not_instance s (push s (Obj c VUndefined)) _ _ c);
    [apply next_fresh|done].
Qed.

End Chaining.

(** X5.  Left identity of [andThen]: wrapping a value with [some] and
    chaining [f] on it is one run of [f] on that value, in the store where
    the wrapper has been allocated. *)
Theorem andThen_left_identity (v : val) (f : val -> M val) (s : store) :
  (a <- some v ;; Option.andThen a f) s = f v (push s (Obj CSome v)).
Proof.
  unfold bind, some. rewrite construct_Some_run.
  rewrite andThen_Some_run by (by rewrite instanceof_next).
  by rewrite held_next.
Qed.

(** X6.  Right identity of [andThen], up to identity of instances: on an
    Option, [andThen(x => some(x))] returns an Option that agrees with the
    receiver as a value, but is always a newly constructed instance and
    never the receiver. *)
Theorem andThen_right_identity (this : val) (s : store) :
  is_option (heap s) this = true ->
  exists r s',
    Option.andThen this some s = (Return r, s') /\
    agree s this s' r /\
    fresh_in s s' r /\ r <> this.
Proof.
  intros Hthis. pose proof (is_option_Option _ _ Hthis) as HO.
  destruct (is_option_cases _ _ Hthis) as [[HS HN]|[HS HN]].
  - rewrite andThen_Some_run by done. unfold some.
    rewrite construct_Some_run.
    exists (next s), (push s (Obj CSome (held (heap s) this))).
    split; [done|]. split.
    + apply agree_refl_Some; [done|by rewrite instanceof_next|].
      by rewrite held_next.
    + split; [apply next_fresh|].
      by eapply next_not_instance.
  - rewrite andThen_not_Some_run, construct_None_run by done.
    exists (next s), (push s (Obj CNone VUndefined)).
    split; [done|]. split.
    + apply agree_None; [done|by rewrite instanceof_next].
    + split; [apply next_fresh|].
      by eapply next_not_instance.
Qed.

(** X7.  Associativity of [andThen].  On a [Some],
    [this.andThen(f).andThen(g)] and [this.andThen(x => f(x).andThen(g))]
    are the same computation, whatever [f] and [g] do.  On a [None] both
    complete with a [None] without running [f] or [g]; the first allocates
    two instances and the second one. *)
Theorem andThen_associative
    (this : val) (f g : val -> M val) (s : store) :
  is_option (heap s) this = true ->
  (instanceof (heap s) this CSome = true ->
   (r <- Option.andThen this f ;; Option.andThen r g) s =
   Option.andThen this (fun x => r <- f x ;; Option.andThen r g) s) /\
  (instanceof (heap s) this CNone = true ->
   exists r1 s1 r2 s2,
     (r <- Option.andThen this f ;; Option.andThen r g) s = (Return r1, s1) /\
     Option.andThen this (fun x => r <- f x ;; Option.andThen r g) s =
       (Return r2, s2) /\
     instanceof (heap s1) r1 CNone = true /\
     instanceof (heap s2) r2 CNone = true /\
     length (heap s1) = 2 + length (heap s) /\
     length (heap s2) = 1 + length (heap s) /\
     trace s1 = trace s /\ trace s2 = trace s).
Proof.
  intros Hthis. pose proof (is_option_Option _ _ Hthis) as HO.
  split.
  - intros HS. unfold bind at 1. by rewrite !andThen_Some_run.
  - intros HN. pose proof (is_option_None_not_Some _ _ HN) as HS.
    unfold bind at 1. rewrite !andThen_not_Some_run by done.
    rewrite construct_None_run.
    rewrite andThen_not_Some_run, construct_None_run
      by (by rewrite instanceof_next).
    do 4 eexists. do 2 (split; [done|]).
    rewrite !instanceof_next. simpl. rewrite !length_app. simpl.
    repeat split; lia.
Qed.

(** X8.  [map] preserves composition of pure functions, as values: on an
    Option, [this.map(f).map(g)] and [this.map(x => g(f(x)))] both complete
    and their results agree (both [Some] holding [g(f(value))], or both
    [None]). *)
Theorem map_preserves_composition
    (this : val) (f g : val -> val) (s : store) :
  is_option (heap s) this = true ->
  exists r1 s1 r2 s2,
    (m <- Option.map this (pure_fn f) ;; Option.map m (pure_fn g)) s =
      (Return r1, s1) /\
    Option.map this (pure_fn (fun x => g (f x))) s = (Return r2, s2) /\
    agree s1 r1 s2 r2 /\
    (instanceof (heap s) this CSome = true ->
     held (heap s1) r1 = g (f (held (heap s) this))).
Proof.
  intros Hthis. pose proof (is_option_Option _ _ Hthis) as HO.
  destruct (is_option_cases _ _ Hthis) as [[HS HN]|[HS HN]].
  - unfold bind. rewrite !map_pure_Some_run by done.
    rewrite map_pure_Some_run by (by rewrite instanceof_next).
    rewrite (map_pure_Some_run this) by done. rewrite held_next.
    do 4 eexists. do 2 (split; [done|]).
    split; [|intros _; by rewrite held_next].
    apply agree_refl_Some; rewrite ?instanceof_next, ?held_next; done.
  - unfold bind. rewrite !map_not_Some_run by done.
    rewrite map_not_Some_run by (by rewrite !instanceof_next).
    rewrite ?(map_not_Some_run this) by done.
    do 4 eexists. do 2 (split; [done|]).
    split; [|congruence].
    apply agree_None; by rewrite instanceof_next.
Qed.

(** X9.  [map] preserves the identity function as a value only: on an
    Option, [this.map(x => x)] agrees with the receiver as a value, and is
    a newly constructed instance, never the receiver. *)
Theorem map_identity (this : val) (s : store) :
  is_option (heap s) this = true ->
  exists r s',
    Option.map this (pure_fn (fun x => x)) s = (Return r, s') /\
    agree s this s' r /\
    fresh_in s s' r /\ r <> this.
Proof.
  intros Hthis. pose proof (is_option_Option _ _ Hthis) as HO.
  destruct (is_option_cases _ _ Hthis) as [[HS HN]|[HS HN]].
  - rewrite map_pure_Some_run by done. do 2 eexists. split; [done|].
    split; [|split; [apply next_fresh|]].
    + apply agree_refl_Some; rewrite ?instanceof_next, ?held_next; done.
    + by eapply next_not_instance.
  - rewrite map_not_Some_run by done.
    do 2 eexists. split; [done|].
    split; [|split; [apply next_fresh|]].
    + apply agree_None; rewrite ?instanceof_next; done.
    + by eapply next_not_instance.
Qed.

Section Nesting.

Implicit Types (s : store) (v this r : val) (o : object) (c : class).

(** A value that becomes an instance by one allocation is the allocated
    object. *)
Lemma instanceof_push_new s o r c :
  instanceof (heap s) r c = false ->
  instanceof (heap (push s o)) r c = true ->
  r = next s.
Proof.
  unfold instanceof, push, next. simpl. destruct r; try done.
  destruct ((heap s ++ [o]) !! l) as [o'|] eqn:E; [|done].
  apply lookup_snoc_Some in E as [[_ E]|[-> _]]; [|done].
  rewrite E. congruence.
Qed.

Lemma filter_pure_run this (p : val -> val) s :
  is_option (heap s) this = true ->
  Option.filter this (pure_fn p) s =
  if instanceof (heap s) this CSome && truthy (p (held (heap s) this))
  then (Return this, s)
  else (Return (next s), push s (Obj CNone VUndefined)).
Proof.
  intros Hthis. pose proof (is_option_Option _ _ Hthis) as HO.
  destruct (instanceof (heap s) this CSome) eqn:HS; simpl.
  - rewrite filter_Some_run by done. unfold bind, pure_fn, ret.
    destruct (truthy (p (held (heap s) this))); [done|].
    apply construct_None_run.
  - rewrite filter_not_Some_run by done. apply construct_None_run.
Qed.

Lemma is_option_next_None s :
  is_option (heap (push s (Obj CNone VUndefined))) (next s) = true.
Proof. unfold is_option. by rewrite !instanceof_next. Qed.

End Nesting.

(** X10.  [map] followed by [flatten] is [andThen] only when the function
    returns a [Some].  On a [Some] receiver, with [f] returning [r]:
    [andThen(f)] returns [r]; [map(f).flatten()] returns [r] too when [r]
    is a [Some], but when [r] is not a [Some] (a [None] in particular) it
    returns the wrapper that [map] allocated, a [Some] holding [r]. *)
Theorem map_then_flatten_keeps_a_None_wrapped
    (this r : val) (f : val -> M val) (s s1 : store) :
  instanceof (heap s) this CSome = true ->
  f (held (heap s) this) s = (Return r, s1) ->
  Option.andThen this f s = (Return r, s1) /\
  (instanceof (heap s1) r CSome = true ->
   (m <- Option.map this f ;; Option.flatten m) s =
     (Return r, push s1 (Obj CSome r))) /\
  (instanceof (heap s1) r CSome = false ->
   (m <- Option.map this f ;; Option.flatten m) s =
     (Return (next s1), push s1 (Obj CSome r)) /\
   instanceof (heap (push s1 (Obj CSome r))) (next s1) CSome = true /\
   held (heap (push s1 (Obj CSome r))) (next s1) = r).
Proof.
  intros HS Hf.
  split; [by rewrite andThen_Some_run|].
  assert ((m <- Option.map this f ;; Option.flatten m) s =
          (Return (if instanceof (heap (push s1 (Obj CSome r))) r CSome
                   then r else next s1), push s1 (Obj CSome r))) as E.
  { unfold bind at 1. rewrite map_Some_run by done.
    unfold bind. rewrite Hf, construct_Some_run.
    rewrite flatten_Some_run by (by rewrite instanceof_next).
    by rewrite held_next. }
  rewrite E. split.
  - intros Hr. by rewrite (instanceof_push _ _ _ _ _ Hr), Hr.
  - intros Hr. rewrite instanceof_next, held_next.
    repeat split.
    destruct (instanceof (heap (push s1 (Obj CSome r))) r CSome) eqn:Hr';
      [|done].
    by rewrite (instanceof_push_new _ _ _ _ Hr Hr').
Qed.

(** X11.  [filter] with a pure predicate is idempotent as a value:
    filtering the result again with the same predicate agrees with
    filtering once; and whenever [filter] returns a [Some], that [Some] is
    the receiver and the predicate holds of its value. *)
Theorem filter_idempotent (this : val) (p : val -> val) (s : store) :
  is_option (heap s) this = true ->
  exists r1 s1 r2 s2,
    (m <- Option.filter this (pure_fn p) ;; Option.filter m (pure_fn p)) s =
      (Return r1, s1) /\
    Option.filter this (pure_fn p) s = (Return r2, s2) /\
    agree s1 r1 s2 r2 /\
    (instanceof (heap s2) r2 CSome = true ->
     r2 = this /\ r1 = this /\ s1 = s /\
     truthy (p (held (heap s) this)) = true).
Proof.
  intros Hthis. unfold bind. rewrite !filter_pure_run by done.
  destruct (instanceof (heap s) this CSome && truthy (p (held (heap s) this)))
    eqn:E.
  - rewrite filter_pure_run, E by done.
    apply andb_true_iff in E as [HS Hp].
    exists this, s, this, s. do 2 (split; [done|]).
    split; [by apply agree_refl_Some|done].
  - rewrite filter_pure_run by apply is_option_next_None.
    rewrite instanceof_next. simpl.
    do 4 eexists. do 2 (split; [done|]).
    split; [apply agree_None; by rewrite instanceof_next|].
    by rewrite instanceof_next.
Qed.

Section XorVariants.

Implicit Types (s : store) (a b c : val).

Lemma instanceof_prefix_eq (h h' : list object) v k k0 :
  h `prefix_of` h' ->
  instanceof h v k0 = true ->
  instanceof h' v k = instanceof h v k.
Proof.
  intros [more ->]. unfold instanceof. destruct v; try done.
  destruct (h !! l) as [o|] eqn:E; [|done].
  intros _. by rewrite (lookup_app_l_Some _ _ _ _ E).
Qed.

(** What [xor] returns, in one statement usable in any store that extends
    the one the operands live in. *)
Lemma xor_variant a b s :
  is_option (heap s) a = true ->
  is_option (heap s) b = true ->
  exists r s',
    Option.xor a b s = (Return r, s') /\
    heap s `prefix_of` heap s' /\
    is_option (heap s') r = true /\
    instanceof (heap s') r CSome =
      xorb (instanceof (heap s) a CSome) (instanceof (heap s) b CSome) /\
    (instanceof (heap s) a CSome = true ->
     instanceof (heap s) b CSome = false -> r = a) /\
    (instanceof (heap s) a CSome = false ->
     instanceof (heap s) b CSome = true -> r = b).
Proof.
  intros Ha Hb.
  pose proof (is_option_Option _ _ Ha) as HOa.
  pose proof (is_option_Option _ _ Hb) as HOb.
  rewrite xor_run by done.
  destruct (instanceof (heap s) a CSome) eqn:HSa,
    (instanceof (heap s) b CSome) eqn:HSb; simpl.
  - rewrite construct_None_run. do 2 eexists. split; [done|].
    split; [apply push_prefix|]. rewrite is_option_next_None.
    by rewrite instanceof_next.
  - exists a, s. by rewrite HSa.
  - exists b, s. by rewrite HSb.
  - rewrite construct_None_run. do 2 eexists. split; [done|].
    split; [apply push_prefix|]. rewrite is_option_next_None.
    by rewrite instanceof_next.
Qed.

Lemma is_option_prefix (h h' : list object) v :
  h `prefix_of` h' -> is_option h v = true -> is_option h' v = true.
Proof.
  unfold is_option. intros Hpre [H|H]%orb_true_iff; apply orb_true_iff;
    eauto using instanceof_prefix.
Qed.

End XorVariants.

(** X12.  [xor] is associative on variants but not on values.  For Options
    [a], [b], [c], both [a.xor(b).xor(c)] and [a.xor(b.xor(c))] complete,
    and one is a [Some] exactly when the other is (namely when an odd
    number of the operands are).  When all three are [Some], however, the
    first returns [c] and the second returns [a]. *)
Theorem xor_associative_on_variants_only (a b c : val) (s : store) :
  is_option (heap s) a = true ->
  is_option (heap s) b = true ->
  is_option (heap s) c = true ->
  exists r1 s1 r2 s2,
    (ab <- Option.xor a b ;; Option.xor ab c) s = (Return r1, s1) /\
    (bc <- Option.xor b c ;; Option.xor a bc) s = (Return r2, s2) /\
    instanceof (heap s1) r1 CSome =
      xorb (xorb (instanceof (heap s) a CSome) (instanceof (heap s) b CSome))
           (instanceof (heap s) c CSome) /\
    instanceof (heap s2) r2 CSome = instanceof (heap s1) r1 CSome /\
    (instanceof (heap s) a CSome = true ->
     instanceof (heap s) b CSome = true ->
     instanceof (heap s) c CSome = true ->
     r1 = c /\ r2 = a).
Proof.
  intros Ha Hb Hc.
  destruct (xor_variant a b s Ha Hb)
    as (ab & sab & Eab & Pab & Oab & Sab & _ & _).
  destruct (xor_variant b c s Hb Hc)
    as (bc & sbc & Ebc & Pbc & Obc & Sbc & _ & _).
  destruct (xor_variant ab c sab Oab (is_option_prefix _ _ _ Pab Hc))
    as (r1 & s1 & E1 & _ & _ & S1 & _ & R1).
  destruct (xor_variant a bc sbc (is_option_prefix _ _ _ Pbc Ha) Obc)
    as (r2 & s2 & E2 & _ & _ & S2 & R2 & _).
  exists r1, s1, r2, s2. unfold bind. rewrite Eab, Ebc.
  do 2 (split; [done|]).
  pose proof (is_option_Option _ _ Ha) as HOa.
  pose proof (is_option_Option _ _ Hc) as HOc.
  rewrite (instanceof_prefix_eq _ _ c _ _ Pab HOc) in S1, R1.
  rewrite (instanceof_prefix_eq _ _ a _ _ Pbc HOa) in S2, R2.
  rewrite Sab in S1, R1. rewrite Sbc in S2, R2.
  split; [done|]. split.
  - rewrite S1, S2. by rewrite xorb_assoc.
  - intros HSa HSb HSc. rewrite HSa, HSb, HSc in *. simpl in *. auto.
Qed.

(** ** Immutability *)

Section Immutability.

Implicit Types (s : store) (v this optb fallback : val).

Lemma only_grows_ret {A} (a : A) : only_grows (ret a).
Proof. by intros s. Qed.

Lemma only_grows_throw {A} e : only_grows (@throw A e).
Proof. by intros s. Qed.

Lemma only_grows_bind {A B} (m : M A) (k : A -> M B) :
  only_grows m -> (forall a, only_grows (k a)) -> only_grows (a <- m ;; k a).
Proof.
  intros Hm Hk s. unfold bind. specialize (Hm s).
  destruct (m s) as [[a|e] s1]; [|done]. simpl in Hm.
  etrans; [exact Hm|apply Hk].
Qed.

Lemma only_grows_method {A} this (m : M A) :
  only_grows m -> only_grows (method this m).
Proof.
  intros Hm s. unfold method.
  destruct (instanceof (heap s) this COption); [apply Hm|done].
Qed.

Lemma only_grows_isSome this : only_grows (Option.isSome this).
Proof. apply only_grows_method. by intros s. Qed.

Lemma only_grows_isNone this : only_grows (Option.isNone this).
Proof. apply only_grows_method. by intros s. Qed.

Lemma only_grows_get_value this : only_grows (get_value this).
Proof.
  intros s. unfold get_value. destruct this; try done.
  by destruct (heap s !! l).
Qed.

Lemma only_grows_new_Some v : only_grows (Option.new_Some v).
Proof. intros s. rewrite construct_Some_run. apply push_prefix. Qed.

Lemma only_grows_new_None : only_grows Option.new_None.
Proof. intros s. rewrite construct_None_run. apply push_prefix. Qed.

Lemma only_grows_new_Option v : only_grows (Option.new_Option v).
Proof. intros s. rewrite construct_Option_run. apply push_prefix. Qed.

Lemma only_grows_if {A} (b : bool) (m m' : M A) :
  only_grows m -> only_grows m' -> only_grows (if b then m else m').
Proof. by destruct b. Qed.

Lemma only_grows_unwrap this : only_grows (Option.unwrap this).
Proof.
  apply only_grows_method, only_grows_bind; [apply only_grows_isSome|].
  intros b. apply only_grows_if;
    [apply only_grows_get_value|apply only_grows_throw].
Qed.

Lemma only_grows_branch {A} this (yes no : M A) :
  only_grows yes -> only_grows no ->
  only_grows (method this (is_some <- Option.isSome this ;;
                           if is_some : bool then yes else no)).
Proof.
  intros Hyes Hno.
  apply only_grows_method, only_grows_bind; [apply only_grows_isSome|].
  intros b. by apply only_grows_if.
Qed.

Lemma only_grows_mapOrElse this (produce : M val) (op : val -> M val) :
  only_grows produce -> (forall v, only_grows (op v)) ->
  only_grows (Option.mapOrElse this produce op).
Proof.
  intros Hp Hop. apply only_grows_branch; [|done].
  apply only_grows_bind; [apply only_grows_unwrap|done].
Qed.

Lemma only_grows_andThen this (op : val -> M val) :
  (forall v, only_grows (op v)) -> only_grows (Option.andThen this op).
Proof.
  intros Hop. apply only_grows_branch; [|apply only_grows_new_None].
  apply only_grows_bind; [apply only_grows_unwrap|done].
Qed.

End Immutability.

(** X13.  No method changes an existing object.  Each constructor call and
    each method, run in any store on any receiver and arguments, ends
    (normally or by a throw) in a store whose heap extends the initial one,
    provided the supplied functions do: every object that existed keeps
    its class and its held value. *)
Theorem methods_only_allocate
    (this optb fallback value : val) (op : val -> M val) (produce : M val) :
  (forall v, only_grows (op v)) ->
  only_grows produce ->
  only_grows (Option.new_Option value) /\
  only_grows (Option.new_Some value) /\
  only_grows Option.new_None /\
  only_grows (Option.isSome this) /\
  only_grows (Option.isNone this) /\
  only_grows (Option.unwrap this) /\
  only_grows (Option.unwrapOr this fallback) /\
  only_grows (Option.unwrapOrElse this produce) /\
  only_grows (Option.map this op) /\
  only_grows (Option.mapOr this fallback op) /\
  only_grows (Option.mapOrElse this produce op) /\
  only_grows (Option.and this optb) /\
  only_grows (Option.andThen this op) /\
  only_grows (Option.filter this op) /\
  only_grows (Option.or this optb) /\
  only_grows (Option.orElse this produce) /\
  only_grows (Option.xor this optb) /\
  only_grows (Option.flatten this).
Proof.
  intros Hop Hp.
  pose proof only_grows_new_None as HN.
  pose proof only_grows_unwrap as HU.
  pose proof (@only_grows_ret val) as HR.
  split_and!.
  - apply only_grows_new_Option.
  - apply only_grows_new_Some.
  - done.
  - apply only_grows_isSome.
  - apply only_grows_isNone.
  - done.
  - by apply only_grows_branch.
  - by apply only_grows_branch.
  - apply only_grows_branch; [|done].
    apply only_grows_bind; [done|]. intros v.
    apply only_grows_bind; [done|]. intros u. apply only_grows_new_Some.
  - apply only_grows_branch; [|done]. by apply only_grows_bind.
  - by apply only_grows_mapOrElse.
  - by apply only_grows_branch.
  - by apply only_grows_andThen.
  - apply only_grows_method, only_grows_andThen. intros v.
    apply only_grows_bind; [done|]. intros keep. by apply only_grows_if.
  - by apply only_grows_branch.
  - by apply only_grows_branch.
  - apply only_grows_branch;
      (apply only_grows_bind; [apply only_grows_isSome|]);
      intros b; by apply only_grows_if.
  - apply only_grows_method, only_grows_mapOrElse; [done|]. intros v.
    apply only_grows_bind; [by intros s|]. intros b. by apply only_grows_if.
Qed.

(** X14.  The queries never allocate: for every receiver and argument, an
    Option or not, [isSome], [isNone], [unwrap], [unwrapOr] and [or] end in
    exactly the store they started in, also when they throw. *)
Theorem queries_leave_the_store_unchanged
    (this optb fallback : val) (s : store) :
  snd (Option.isSome this s) = s /\
  snd (Option.isNone this s) = s /\
  snd (Option.unwrap this s) = s /\
  snd (Option.unwrapOr this fallback s) = s /\
  snd (Option.or this optb s) = s.
Proof.
  assert (snd (Option.unwrap this s) = s) as HU.
  { unfold Option.unwrap, method.
    destruct (instanceof (heap s) this COption) eqn:HO; [|done].
    unfold bind. rewrite isSome_run by done.
    destruct (instanceof (heap s) this CSome) eqn:HS; [|done].
    by rewrite (get_value_run _ _ _ HS). }
  unfold Option.isSome, Option.isNone, Option.unwrapOr, Option.or.
  repeat split; try done; unfold method;
    destruct (instanceof (heap s) this COption) eqn:HO; try done;
    unfold bind; rewrite ?isSome_run by done;
    destruct (instanceof (heap s) this CSome); done.
Qed.

(** X15.  [none()] returns a newly constructed [None] whose slot holds
    [undefined]; called right after, [unwrap()] throws 'tried to unwrap on
    None', [unwrapOr(fallback)] and [mapOr(fallback, op)] return [fallback]
    without running [op], and [or(b)] returns [b]. *)
Theorem none_is_absent
    (fallback b : val) (op : val -> M val) (s : store) :
  none s = (Return (next s), push s (Obj CNone VUndefined)) /\
  fresh_in s (push s (Obj CNone VUndefined)) (next s) /\
  (a <- none ;; Option.unwrap a) s =
    (Throw OptionError.illegalUnwrap, push s (Obj CNone VUndefined)) /\
  (a <- none ;; Option.unwrapOr a fallback) s =
    (Return fallback, push s (Obj CNone VUndefined)) /\
  (a <- none ;; Option.mapOr a fallback op) s =
    (Return fallback, push s (Obj CNone VUndefined)) /\
  (a <- none ;; Option.or a b) s =
    (Return b, push s (Obj CNone VUndefined)).
Proof.
  set (s' := push s (Obj CNone VUndefined)).
  assert (instanceof (heap s') (next s) COption = true) as HO
    by (by unfold s'; rewrite instanceof_next).
  assert (instanceof (heap s') (next s) CSome = false) as HS
    by (by unfold s'; rewrite instanceof_next).
  split; [apply construct_None_run|]. split; [apply next_fresh|].
  unfold bind, none. rewrite construct_None_run. fold s'.
  rewrite unwrap_not_Some_run by done.
  unfold Option.unwrapOr, Option.mapOr, Option.or.
  by rewrite !branch_not_Some.
Qed.

(** ** The further properties at work on the sample store *)

Lemma wrap_only_grows v : only_grows (wrap v).
Proof. apply only_grows_new_Some. Qed.

Lemma unwrapOr_gives_value_or_fallback_witness :
  is_option (heap sample) (VRef 1) = true /\
  Option.unwrapOr (VRef 1) (VStr "baz") sample =
    (Return (if instanceof (heap sample) (VRef 1) CSome
             then held (heap sample) (VRef 1) else VStr "baz"), sample).
Proof.
  split; [reflexivity|].
  apply (unwrapOr_gives_value_or_fallback (VRef 1) (VStr "baz") sample).
  reflexivity.
Defined.

Lemma fallback_functions_run_only_on_None_witness :
  is_option (heap sample) (VRef 0) = true /\
  (instanceof (heap sample) (VRef 0) CSome = true ->
   Option.unwrapOrElse (VRef 0) (throw TypeError) sample =
     (Return (held (heap sample) (VRef 0)), sample) /\
   Option.mapOrElse (VRef 0) (throw TypeError) wrap sample =
     wrap (held (heap sample) (VRef 0)) sample /\
   Option.orElse (VRef 0) (throw TypeError) sample =
     (Return (VRef 0), sample)) /\
  (instanceof (heap sample) (VRef 0) CNone = true ->
   Option.unwrapOrElse (VRef 0) (throw TypeError) sample =
     throw TypeError sample /\
   Option.mapOrElse (VRef 0) (throw TypeError) wrap sample =
     throw TypeError sample /\
   Option.orElse (VRef 0) (throw TypeError) sample = throw TypeError sample).
Proof.
  split; [reflexivity|].
  apply (fallback_functions_run_only_on_None (VRef 0) (throw TypeError) wrap
           sample).
  reflexivity.
Defined.

Lemma and_or_truth_table_witness :
  is_option (heap sample) (VRef 1) = true /\
  is_option (heap sample) (VRef 0) = true /\
  (exists r s',
     Option.and (VRef 1) (VRef 0) sample = (Return r, s') /\
     instanceof (heap s') r CSome =
       instanceof (heap sample) (VRef 1) CSome &&
       instanceof (heap sample) (VRef 0) CSome /\
     is_option (heap s') r = true /\
     (instanceof (heap sample) (VRef 1) CSome = true ->
      r = VRef 0 /\ s' = sample) /\
     (instanceof (heap sample) (VRef 1) CNone = true ->
      fresh_in sample s' r)) /\
  Option.or (VRef 1) (VRef 0) sample =
    (Return (if instanceof (heap sample) (VRef 1) CSome
             then VRef 1 else VRef 0), sample) /\
  instanceof (heap sample)
    (if instanceof (heap sample) (VRef 1) CSome then VRef 1 else VRef 0)
    CSome =
    instanceof (heap sample) (VRef 1) CSome ||
    instanceof (heap sample) (VRef 0) CSome.
Proof.
  split; [reflexivity|]. split; [reflexivity|].
  apply (and_or_truth_table (VRef 1) (VRef 0) sample); reflexivity.
Defined.

Lemma andThen_right_identity_witness :
  is_option (heap sample) (VRef 0) = true /\
  exists r s',
    Option.andThen (VRef 0) some sample = (Return r, s') /\
    agree sample (VRef 0) s' r /\
    fresh_in sample s' r /\ r <> VRef 0.
Proof.
  split; [reflexivity|].
  apply (andThen_right_identity (VRef 0) sample). reflexivity.
Defined.

Lemma andThen_associative_witness :
  is_option (heap sample) (VRef 2) = true /\
  (instanceof (heap sample) (VRef 2) CSome = true ->
   (r <- Option.andThen (VRef 2) same ;; Option.andThen r wrap) sample =
   Option.andThen (VRef 2)
     (fun x => r <- same x ;; Option.andThen r wrap) sample) /\
  (instanceof (heap sample) (VRef 2) CNone = true ->
   exists r1 s1 r2 s2,
     (r <- Option.andThen (VRef 2) same ;; Option.andThen r wrap) sample =
       (Return r1, s1) /\
     Option.andThen (VRef 2)
       (fun x => r <- same x ;; Option.andThen r wrap) sample =
       (Return r2, s2) /\
     instanceof (heap s1) r1 CNone = true /\
     instanceof (heap s2) r2 CNone = true /\
     length (heap s1) = 2 + length (heap sample) /\
     length (heap s2) = 1 + length (heap sample) /\
     trace s1 = trace sample /\ trace s2 = trace sample).
Proof.
  split; [reflexivity|].
  apply (andThen_associative (VRef 2) same wrap sample). reflexivity.
Defined.

Lemma map_preserves_composition_witness :
  is_option (heap sample) (VRef 0) = true /\
  exists r1 s1 r2 s2,
    (m <- Option.map (VRef 0) (pure_fn (fun x => VRef 1)) ;;
     Option.map m (pure_fn (fun x => VNull))) sample = (Return r1, s1) /\
    Option.map (VRef 0)
      (pure_fn (fun x => (fun _ => VNull) ((fun _ => VRef 1) x))) sample =
      (Return r2, s2) /\
    agree s1 r1 s2 r2 /\
    (instanceof (heap sample) (VRef 0) CSome = true ->
     held (heap s1) r1 =
       (fun _ => VNull) ((fun _ => VRef 1) (held (heap sample) (VRef 0)))).
Proof.
  split; [reflexivity|].
  apply (map_preserves_composition (VRef 0) (fun _ => VRef 1)
           (fun _ => VNull) sample).
  reflexivity.
Defined.

Lemma map_identity_witness :
  is_option (heap sample) (VRef 0) = true /\
  exists r s',
    Option.map (VRef 0) (pure_fn (fun x => x)) sample = (Return r, s') /\
    agree sample (VRef 0) s' r /\
    fresh_in sample s' r /\ r <> VRef 0.
Proof.
  split; [reflexivity|].
  apply (map_identity (VRef 0) sample). reflexivity.
Defined.

Lemma map_then_flatten_keeps_a_None_wrapped_witness :
  instanceof (heap sample) (VRef 0) CSome = true /\
  (fun _ => Option.new_None) (held (heap sample) (VRef 0)) sample =
    (Return (VRef 5), push sample (Obj CNone VUndefined)) /\
  Option.andThen (VRef 0) (fun _ => Option.new_None) sample =
    (Return (VRef 5), push sample (Obj CNone VUndefined)) /\
  (instanceof (heap (push sample (Obj CNone VUndefined))) (VRef 5) CSome
   = true ->
   (m <- Option.map (VRef 0) (fun _ => Option.new_None) ;;
    Option.flatten m) sample =
     (Return (VRef 5),
      push (push sample (Obj CNone VUndefined)) (Obj CSome (VRef 5)))) /\
  (instanceof (heap (push sample (Obj CNone VUndefined))) (VRef 5) CSome
   = false ->
   (m <- Option.map (VRef 0) (fun _ => Option.new_None) ;;
    Option.flatten m) sample =
     (Return (next (push sample (Obj CNone VUndefined))),
      push (push sample (Obj CNone VUndefined)) (Obj CSome (VRef 5))) /\
   instanceof
     (heap (push (push sample (Obj CNone VUndefined)) (Obj CSome (VRef 5))))
     (next (push sample (Obj CNone VUndefined))) CSome = true /\
   held
     (heap (push (push sample (Obj CNone VUndefined)) (Obj CSome (VRef 5))))
     (next (push sample (Obj CNone VUndefined))) = VRef 5).
Proof.
  split; [reflexivity|]. split; [reflexivity|].
  apply (map_then_flatten_keeps_a_None_wrapped (VRef 0) (VRef 5)
           (fun _ => Option.new_None) sample
           (push sample (Obj CNone VUndefined))); reflexivity.
Defined.

Lemma filter_idempotent_witness :
  is_option (heap sample) (VRef 4) = true /\
  exists r1 s1 r2 s2,
    (m <- Option.filter (VRef 4) (pure_fn (fun x => VBool true)) ;;
     Option.filter m (pure_fn (fun x => VBool true))) sample =
      (Return r1, s1) /\
    Option.filter (VRef 4) (pure_fn (fun x => VBool true)) sample =
      (Return r2, s2) /\
    agree s1 r1 s2 r2 /\
    (instanceof (heap s2) r2 CSome = true ->
     r2 = VRef 4 /\ r1 = VRef 4 /\ s1 = sample /\
     truthy ((fun _ => VBool true) (held (heap sample) (VRef 4))) = true).
Proof.
  split; [reflexivity|].
  apply (filter_idempotent (VRef 4) (fun _ => VBool true) sample).
  reflexivity.
Defined.

Lemma xor_associative_on_variants_only_witness :
  is_option (heap sample) (VRef 0) = true /\
  is_option (heap sample) (VRef 2) = true /\
  is_option (heap sample) (VRef 4) = true /\
  exists r1 s1 r2 s2,
    (ab <- Option.xor (VRef 0) (VRef 2) ;; Option.xor ab (VRef 4)) sample =
      (Return r1, s1) /\
    (bc <- Option.xor (VRef 2) (VRef 4) ;; Option.xor (VRef 0) bc) sample =
      (Return r2, s2) /\
    instanceof (heap s1) r1 CSome =
      xorb (xorb (instanceof (heap sample) (VRef 0) CSome)
                 (instanceof (heap sample) (VRef 2) CSome))
           (instanceof (heap sample) (VRef 4) CSome) /\
    instanceof (heap s2) r2 CSome = instanceof (heap s1) r1 CSome /\
    (instanceof (heap sample) (VRef 0) CSome = true ->
     instanceof (heap sample) (VRef 2) CSome = true ->
     instanceof (heap sample) (VRef 4) CSome = true ->
     r1 = VRef 4 /\ r2 = VRef 0).
Proof.
  split; [reflexivity|]. split; [reflexivity|]. split; [reflexivity|].
  apply (xor_associative_on_variants_only (VRef 0) (VRef 2) (VRef 4) sample);
    reflexivity.
Defined.

Lemma methods_only_allocate_witness :
  (forall v, only_grows (wrap v)) /\
  only_grows Option.new_None /\
  only_grows (Option.new_Option VNull) /\
  only_grows (Option.new_Some VNull) /\
  only_grows Option.new_None /\
  only_grows (Option.isSome (VRef 0)) /\
  only_grows (Option.isNone (VRef 0)) /\
  only_grows (Option.unwrap (VRef 0)) /\
  only_grows (Option.unwrapOr (VRef 0) (VStr "baz")) /\
  only_grows (Option.unwrapOrElse (VRef 0) Option.new_None) /\
  only_grows (Option.map (VRef 0) wrap) /\
  only_grows (Option.mapOr (VRef 0) (VStr "baz") wrap) /\
  only_grows (Option.mapOrElse (VRef 0) Option.new_None wrap) /\
  only_grows (Option.and (VRef 0) (VRef 1)) /\
  only_grows (Option.andThen (VRef 0) wrap) /\
  only_grows (Option.filter (VRef 0) wrap) /\
  only_grows (Option.or (VRef 0) (VRef 1)) /\
  only_grows (Option.orElse (VRef 0) Option.new_None) /\
  only_grows (Option.xor (VRef 0) (VRef 1)) /\
  only_grows (Option.flatten (VRef 0)).
Proof.
  split; [exact wrap_only_grows|]. split; [exact only_grows_new_None|].
  apply (methods_only_allocate (VRef 0) (VRef 1) (VStr "baz") VNull wrap
           Option.new_None);
    [exact wrap_only_grows | exact only_grows_new_None].
Defined.
